(** * compare-repos: catalog and similarity-matching engine

    A shallow embedding of [scripts/compare-repos.py] and the properties of
    its frontmatter parser, keyword extractor, similarity engine, overlap and
    gap finders, catalog store and report generator.

    Conventions of the embedding.
    - Python [str] is [string]: the texts covered are those whose code
      points lie below 256, and [str.isspace], [str.lower],
      [str.splitlines] and the regex classes are given on that range.
    - Python [set] is [gset string], [dict] is [gmap string _].
    - A finite Python [float] is the rational it denotes ([Qc]).  Module
      [Binary64] gives the arithmetic of the interpreter: every operation
      returns the binary64 value nearest to its exact result, ties to even,
      and the true division of integers raises [ZeroDivisionError] or
      [OverflowError].  The finders compute and compare their scores there;
      the thresholds are finite floats.
    - [name_similarity], [keyword_similarity] and [combined_similarity] are
      also given on exact rationals, without rounding: the reading of the
      formulas over the reals, with the weights 0.6 and 0.4 themselves
      ([binary64_corners] evaluates the weighted sum in binary64 at the
      sub-scores 0.0 and 1.0).
    - Exceptions are values of [exn], threaded by the monad [result].
    - A JSON cache file is the list of objects [json.loads] reads from it
      (or nothing when the file does not exist); [json.dumps] followed by
      [json.loads] gives back the strings, integers, booleans and lists it
      was given. *)

From Stdlib Require Import Ascii String QArith Qcanon Lqa Floats.
From stdpp Require Import gmap strings list fin_maps sorting pretty.

Local Close Scope Qc_scope.
Local Close Scope Q_scope.
Local Open Scope nat_scope.
Local Open Scope string_scope.
Local Open Scope list_scope.

(* ------------------------------------------------------------------------- *)
(** ** Exceptions *)

Inductive exn : Type :=
  | ZeroDivisionError
  | OverflowError
  | KeyError (key : string)
  | IllTyped (field : string).
  (* [IllTyped] is not a Python exception: it marks a cached value whose type
     is not the one the dataclass declares for the field.  Python stores
     such a value unchecked; the typed model stops there. *)

Inductive result (A : Type) : Type :=
  | Ok (a : A)
  | Raise (e : exn).
Arguments Ok {A} a.
Arguments Raise {A} e.

Definition rbind {A B : Type} (m : result A) (k : A -> result B) : result B :=
  match m with
  | Ok a => k a
  | Raise e => Raise e
  end.

Notation "'do' x <- m ; k" := (rbind m (fun x => k))
  (at level 10, x name, m at level 100, k at level 200).

(* ------------------------------------------------------------------------- *)
(** ** Python string primitives *)

Module Py.

Definition between (lo hi : nat) (c : ascii) : bool :=
  let n := nat_of_ascii c in (lo <=? n)%nat && (n <=? hi)%nat.

(** [c.isspace()], also the regex class [\s]: TAB, LF, VT, FF, CR, FS, GS,
    RS, US, the blank, NEL and the no-break space. *)
Definition isspace (c : ascii) : bool :=
  between 9 13 c || between 28 32 c || between 133 133 c || between 160 160 c.

(** The characters [c.lower()] changes: A-Z and the Latin-1 capitals
    (192-222 without the multiplication sign 215). *)
Definition isupper (c : ascii) : bool :=
  between 65 90 c || between 192 214 c || between 216 222 c.

Definition lower_char (c : ascii) : ascii :=
  if isupper c then ascii_of_nat (nat_of_ascii c + 32) else c.

Definition newline : ascii := "010"%char.
Definition carriage_return : ascii := "013"%char.

Definition is_newline (c : ascii) : bool := Ascii.eqb c newline.

(** The line boundaries of [str.splitlines]: LF, VT, FF, CR, FS, GS, RS and
    NEL (CR LF counts as one). *)
Definition is_linebreak (c : ascii) : bool :=
  between 10 13 c || between 28 30 c || between 133 133 c.

(** [s.lower()] *)
Fixpoint lower (s : string) : string :=
  match s with
  | EmptyString => EmptyString
  | String c s' => String (lower_char c) (lower s')
  end.

(** [s.replace(a, b)] for one-character [a] and [b]. *)
Fixpoint replace (a b : ascii) (s : string) : string :=
  match s with
  | EmptyString => EmptyString
  | String c s' => String (if Ascii.eqb c a then b else c) (replace a b s')
  end.

(** [s.split()]: the maximal runs of non-whitespace characters. *)
Fixpoint split (s : string) : list string :=
  match s with
  | EmptyString => []
  | String c s' =>
      if isspace c then split s'
      else match s' with
           | EmptyString => [String c EmptyString]
           | String d _ =>
               if isspace d then String c EmptyString :: split s'
               else match split s' with
                    | w :: ws => String c w :: ws
                    | [] => [String c EmptyString]
                    end
           end
  end.

(** [s.splitlines()] *)
Fixpoint splitlines (s : string) : list string :=
  match s with
  | EmptyString => []
  | String c s' =>
      if is_linebreak c then
        match s' with
        | String d s'' =>
            if Ascii.eqb c carriage_return && Ascii.eqb d newline
            then EmptyString :: splitlines s''
            else EmptyString :: splitlines s'
        | EmptyString => [EmptyString]
        end
      else match splitlines s' with
           | l :: ls => String c l :: ls
           | [] => [String c EmptyString]
           end
  end.

(** [s.lstrip(...)], [s.rstrip(...)] and [s.strip(...)] for the set of
    characters recognised by [p]. *)
Fixpoint lstrip_with (p : ascii -> bool) (s : string) : string :=
  match s with
  | EmptyString => EmptyString
  | String c s' => if p c then lstrip_with p s' else s
  end.

Fixpoint rstrip_with (p : ascii -> bool) (s : string) : string :=
  match s with
  | EmptyString => EmptyString
  | String c s' =>
      match rstrip_with p s' with
      | EmptyString => if p c then EmptyString else String c EmptyString
      | r => String c r
      end
  end.

Definition strip_with (p : ascii -> bool) (s : string) : string :=
  rstrip_with p (lstrip_with p s).

(** [s.strip()] *)
Definition strip (s : string) : string := strip_with isspace s.

(** [s.strip(c)] for a one-character [c]. *)
Definition strip_char (c : ascii) (s : string) : string :=
  strip_with (Ascii.eqb c) s.

(** [s.split(sep)] for a one-character [sep]: empty fields are kept. *)
Fixpoint split_on (sep : ascii) (s : string) : list string :=
  match s with
  | EmptyString => [EmptyString]
  | String c s' =>
      if Ascii.eqb c sep then EmptyString :: split_on sep s'
      else match split_on sep s' with
           | w :: ws => String c w :: ws
           | [] => [String c EmptyString]
           end
  end.

(** [c in s] for a one-character [c]. *)
Fixpoint contains (c : ascii) (s : string) : bool :=
  match s with
  | EmptyString => false
  | String d s' => Ascii.eqb d c || contains c s'
  end.

(** [s.partition(sep)] for a one-character [sep] that occurs in [s]: the
    text before the first occurrence and the text after it. *)
Fixpoint partition (sep : ascii) (s : string) : string * string :=
  match s with
  | EmptyString => (EmptyString, EmptyString)
  | String c s' =>
      if Ascii.eqb c sep then (EmptyString, s')
      else let '(k, v) := partition sep s' in (String c k, v)
  end.

(** [s.startswith(c)] for a one-character [c]. *)
Definition startswith (c : ascii) (s : string) : bool :=
  match s with
  | EmptyString => false
  | String d _ => Ascii.eqb d c
  end.

(** [sorted(keywords)] of a set of strings: strings compare by code point,
    lexicographically. *)
Definition sorted (keywords : gset string) : list string :=
  merge_sort String.le (elements keywords).

(** [sorted(l, key=...)] and [l.sort(key=...)].  Python's sort is stable,
    also under [reverse=True]: elements that compare equal keep their
    relative order.  The stable arrangement of a list is unique, so the sort
    is given here by insertion from the right; [before x m] tells that [x]
    goes strictly before [m], and [m] is put in front of the first element
    that does not. *)
Fixpoint insert_stable {A : Type} (before : A -> A -> bool) (m : A) (l : list A) : list A :=
  match l with
  | [] => [m]
  | x :: l' => if before x m then x :: insert_stable before m l' else m :: l
  end.

Fixpoint stable_sort {A : Type} (before : A -> A -> bool) (l : list A) : list A :=
  match l with
  | [] => []
  | m :: l' => insert_stable before m (stable_sort before l')
  end.

(** [sep.join(l)] *)
Fixpoint join (sep : string) (l : list string) : string :=
  match l with
  | [] => EmptyString
  | [x] => x
  | x :: l' => x +:+ sep +:+ join sep l'
  end.

(** [s[:n]] *)
Fixpoint slice_to (n : nat) (s : string) : string :=
  match n, s with
  | S n', String c s' => String c (slice_to n' s')
  | _, _ => EmptyString
  end.

(** [s.title()] on ASCII letters; the script applies it to the literals
    [skill] and [agent]. *)
Definition isalpha (c : ascii) : bool := between 65 90 c || between 97 122 c.

Definition upper_char (c : ascii) : ascii :=
  if between 97 122 c then ascii_of_nat (nat_of_ascii c - 32) else c.

Fixpoint title_from (prev_cased : bool) (s : string) : string :=
  match s with
  | EmptyString => EmptyString
  | String c s' =>
      String (if isalpha c then (if prev_cased then lower_char c else upper_char c) else c)
        (title_from (isalpha c) s')
  end.

Definition title (s : string) : string := title_from false s.

(** [sorted(d.items())]: the keys of a dictionary are distinct, so the
    items are ordered by key. *)
Definition sorted_items {V : Type} (d : gmap string V) : list (string * V) :=
  stable_sort (λ x m, String.ltb x.1 m.1) (map_to_list d).

(** [i / u] on integers, as the exact quotient; [Binary64.truediv] rounds
    it. *)
Definition truediv (i u : Z) : result Qc :=
  if bool_decide (u = 0%Z) then Raise ZeroDivisionError
  else Ok (Q2Qc (inject_Z i / inject_Z u)).

(** [len(s)] of a set, as a Python integer. *)
Definition len (s : gset string) : Z := Z.of_nat (size s).

(** [max(a, b)]: the first argument unless the second is strictly greater. *)
Definition max (a b : Qc) : Qc := if decide (a < b)%Qc then b else a.

End Py.

(* ------------------------------------------------------------------------- *)
(** ** Data structures *)

Record Component : Type := mkComponent {
  kind : string;
  name : string;
  repo : string;
  path : string;
  description : string;
  keywords : list string;
  frontmatter : gmap string string;
  line_count : Z;
  has_references : bool;
  reference_files : list string
}.

Global Instance Component_eq_dec : EqDecision Component.
Proof. solve_decision. Defined.

Definition hyphen : ascii := "-"%char.
Definition underscore : ascii := "_"%char.
Definition blank : ascii := " "%char.

(* ------------------------------------------------------------------------- *)
(** ** The regular expressions of the script

    Each pattern is given as the matcher Python's backtracking engine
    computes for it: greedy repetitions take the longest run first and give
    characters back one at a time, lazy ones grow one character at a time. *)

Module Re.

(** [.] without DOTALL: any character but the newline. *)
Definition dot (c : ascii) : bool := negb (Py.is_newline c).

(** The text a greedy [.+] consumes: up to the end of the line. *)
Fixpoint line_rest (s : string) : string :=
  match s with
  | EmptyString => EmptyString
  | String c s' => if dot c then String c (line_rest s') else EmptyString
  end.

(** [cls* (.+)] entered after the first character of a run of [cls]: the
    suffix of [s] at which the group starts.  The run is extended as far as
    it goes first; a start is acceptable when a character that is not a
    newline stands there. *)
Fixpoint group_start (cls : ascii -> bool) (s : string) : option string :=
  match s with
  | EmptyString => None
  | String c s' =>
      match (if cls c then group_start cls s' else None) with
      | Some r => Some r
      | None => if dot c then Some s else None
      end
  end.

(** [cls+ (.+)] at the head of [s]: the group and the number of characters
    matched. *)
Definition run_then_line (cls : ascii -> bool) (s : string) : option (string * nat) :=
  match s with
  | EmptyString => None
  | String c s' =>
      if cls c then
        match group_start cls s' with
        | Some suffix =>
            let g := line_rest suffix in
            Some (g, String.length s - String.length suffix + String.length g)
        | None => None
        end
      else None
  end.

(** [re.finditer]: the groups of the successive non-overlapping matches,
    scanning left to right.  [try_match bol s] attempts a match at the head
    of [s], [bol] telling whether [s] starts a line; [skip] counts the
    characters of the last match still to be passed over. *)
Fixpoint finditer (try_match : bool -> string -> option (string * nat))
    (skip : nat) (bol : bool) (s : string) : list string :=
  match s with
  | EmptyString => []
  | String c s' =>
      match skip with
      | S k => finditer try_match k (Py.is_newline c) s'
      | O =>
          match try_match bol s with
          | Some (g, n) => g :: finditer try_match (n - 1) (Py.is_newline c) s'
          | None => finditer try_match 0 (Py.is_newline c) s'
          end
      end
  end.

(** [^##\s+(.+)$] with MULTILINE, at the head of [s]. *)
Definition heading (bol : bool) (s : string) : option (string * nat) :=
  if bol then
    match s with
    | String "#" (String "#" r) =>
        match run_then_line Py.isspace r with
        | Some (g, n) => Some (g, 2 + n)
        | None => None
        end
    | _ => None
    end
  else None.

(** A literal lower-case word under IGNORECASE at the head of [s]: the rest
    of [s] after it. *)
Fixpoint literal_ci (word s : string) : option string :=
  match word with
  | EmptyString => Some s
  | String w word' =>
      match s with
      | String c s' =>
          if Ascii.eqb (Py.lower_char c) w then literal_ci word' s' else None
      | EmptyString => None
      end
  end.

(** [[:\s]] *)
Definition colon_or_space (c : ascii) : bool :=
  Ascii.eqb c ":" || Py.isspace c.

(** [[s]?[:\s]+(.+)] under IGNORECASE: the optional letter is tried first. *)
Definition trigger_tail (s : string) : option (string * nat) :=
  match s with
  | String c s' =>
      if Ascii.eqb c "s" || Ascii.eqb c "S" then
        match run_then_line colon_or_space s' with
        | Some (g, n) => Some (g, 1 + n)
        | None => run_then_line colon_or_space s
        end
      else run_then_line colon_or_space s
  | EmptyString => None
  end.

Definition trigger_word (word s : string) : option (string * nat) :=
  match literal_ci word s with
  | Some r =>
      match trigger_tail r with
      | Some (g, n) => Some (g, String.length word + n)
      | None => None
      end
  | None => None
  end.

(** [(?:trigger|keyword|pattern)[s]?[:\s]+(.+)] with IGNORECASE, at the head
    of [s]: the alternatives in order. *)
Definition trigger (bol : bool) (s : string) : option (string * nat) :=
  match trigger_word "trigger" s with
  | Some m => Some m
  | None =>
      match trigger_word "keyword" s with
      | Some m => Some m
      | None => trigger_word "pattern" s
      end
  end.

(** [\s*\n] at the head of [s]: the texts left after it, the longest run of
    whitespace first. *)
Fixpoint spaces_newline (s : string) : list string :=
  match s with
  | EmptyString => []
  | String c s' =>
      if Py.isspace c
      then spaces_newline s' ++ (if Py.is_newline c then [s'] else [])
      else []
  end.

(** [---\s*\n] matches at the head of [s]. *)
Definition closing (s : string) : bool :=
  match s with
  | String "-" (String "-" (String "-" r)) =>
      match spaces_newline r with
      | [] => false
      | _ :: _ => true
      end
  | _ => false
  end.

(** [(.*?\n)---\s*\n] with DOTALL at the head of [s]: the group, the
    shortest first. *)
Fixpoint lazy_body (s : string) : option string :=
  match s with
  | EmptyString => None
  | String c s' =>
      if Py.is_newline c && closing s' then Some (String c EmptyString)
      else match lazy_body s' with
           | Some g => Some (String c g)
           | None => None
           end
  end.

Fixpoint first_body (starts : list string) : option string :=
  match starts with
  | [] => None
  | s :: rest =>
      match lazy_body s with
      | Some g => Some g
      | None => first_body rest
      end
  end.

(** [_FM_RE.match(text)]: group 1 of [\A---\s*\n(.*?\n)---\s*\n] with
    DOTALL, if the pattern matches. *)
Definition frontmatter_block (text : string) : option string :=
  match text with
  | String "-" (String "-" (String "-" r)) => first_body (spaces_newline r)
  | _ => None
  end.

(** [re.sub(r"[^a-z0-9]", "", word)] *)
Fixpoint sub_non_alnum (word : string) : string :=
  match word with
  | EmptyString => EmptyString
  | String c w =>
      if Py.between 97 122 c || Py.between 48 57 c
      then String c (sub_non_alnum w) else sub_non_alnum w
  end.

End Re.

(* ------------------------------------------------------------------------- *)
(** ** YAML frontmatter parser *)

Definition double_quote : ascii := "034"%char.
Definition single_quote : ascii := "039"%char.

(** The body of the loop over the lines of the block. *)
Definition parse_frontmatter_line (result : gmap string string) (line : string)
    : gmap string string :=
  let line := Py.strip line in
  if bool_decide (line = EmptyString) || Py.startswith "#" line then result
  else if Py.contains ":" line then
    let '(key, val) := Py.partition ":" line in
    let val := Py.strip_char single_quote (Py.strip_char double_quote (Py.strip val)) in
    <[Py.strip key := val]> result
  else result.

Definition parse_frontmatter (text : string) : gmap string string :=
  match Re.frontmatter_block text with
  | None => ∅
  | Some block => foldl parse_frontmatter_line ∅ (Py.splitlines block)
  end.

(* ------------------------------------------------------------------------- *)
(** ** Keyword extractor *)

(** Name parts: [for part in name.replace("-", " ").split()]. *)
Definition add_name_part (keywords : gset string) (part : string) : gset string :=
  if bool_decide (2 < String.length part) then keywords ∪ {[Py.lower part]}
  else keywords.

(** One word of a [##] heading. *)
Definition add_heading_word (keywords : gset string) (word : string) : gset string :=
  let word := Re.sub_non_alnum word in
  if bool_decide (3 < String.length word) then keywords ∪ {[word]}
  else keywords.

Definition add_heading (keywords : gset string) (group1 : string) : gset string :=
  let heading := Py.lower (Py.strip group1) in
  foldl add_heading_word keywords (Py.split heading).

(** One comma-separated word of a trigger/keyword/pattern section. *)
Definition add_trigger_word (keywords : gset string) (word : string) : gset string :=
  let word :=
    Py.lower (Py.strip_char single_quote (Py.strip_char double_quote (Py.strip word))) in
  if bool_decide (2 < String.length word) && bool_decide (String.length word < 30)
  then keywords ∪ {[word]}
  else keywords.

Definition add_trigger (keywords : gset string) (group1 : string) : gset string :=
  foldl add_trigger_word keywords (Py.split_on "," group1).

Definition extract_keywords (text name : string) : list string :=
  let keywords : gset string := ∅ in
  let keywords :=
    foldl add_name_part keywords (Py.split (Py.replace hyphen blank name)) in
  let keywords :=
    foldl add_heading keywords (Re.finditer Re.heading 0 true text) in
  let keywords :=
    foldl add_trigger keywords (Re.finditer Re.trigger 0 true text) in
  Py.sorted keywords.

(* ------------------------------------------------------------------------- *)
(** ** Similarity matching *)

Definition name_words (a : string) : gset string :=
  list_to_set (Py.split (Py.lower (Py.replace underscore blank (Py.replace hyphen blank a)))).

Definition name_similarity (a b : string) : result Qc :=
  let words_a : gset string := name_words a in
  let words_b : gset string := name_words b in
  if bool_decide (words_a = ∅) || bool_decide (words_b = ∅) then Ok 0%Qc
  else
    let intersection := words_a ∩ words_b in
    let union := words_a ∪ words_b in
    Py.truediv (Py.len intersection) (Py.len union).

Definition keyword_similarity (a b : list string) : result Qc :=
  let set_a : gset string := list_to_set a in
  let set_b : gset string := list_to_set b in
  if bool_decide (set_a = ∅) || bool_decide (set_b = ∅) then Ok 0%Qc
  else
    let intersection := set_a ∩ set_b in
    let union := set_a ∪ set_b in
    Py.truediv (Py.len intersection) (Py.len union).

Definition w_name : Qc := Q2Qc (6 # 10).
Definition w_keyword : Qc := Q2Qc (4 # 10).

Definition combined_similarity (ours theirs : Component) : result Qc :=
  do ns <- name_similarity (name ours) (name theirs);
  do ks <- keyword_similarity (keywords ours) (keywords theirs);
  let ns := if bool_decide (name ours = name theirs) then 1%Qc else ns in
  Ok (w_name * ns + w_keyword * ks)%Qc.

(* ------------------------------------------------------------------------- *)
(** ** Binary64 arithmetic

    The scores as the interpreter computes them.  A finite [float] is the
    rational it denotes; an operation returns the binary64 value nearest to
    its exact result, a tie going to the even significand.  The format has
    53 bits of precision and no spacing below [2 ^ -1074]; the comparisons
    [<] and [>=] of finite floats are those of their values. *)

Module Binary64.

(** The integer nearest to [n / d], for [0 < d]; a tie goes to the even
    one. *)
Definition round_half_even (n d : Z) : Z :=
  let q := (n / d)%Z in
  match (2 * (n mod d) ?= d)%Z with
  | Lt => q
  | Gt => (q + 1)%Z
  | Eq => if Z.even q then q else (q + 1)%Z
  end.

(** Whether [2 ^ e <= a / b], for positive [a] and [b]. *)
Definition reaches_pow2 (a b e : Z) : bool :=
  (b * 2 ^ Z.max e 0 <=? a * 2 ^ Z.max (- e) 0)%Z.

(** The exponent [e] with [2 ^ e <= a / b < 2 ^ (e + 1)], for positive [a]
    and [b]. *)
Definition floor_log2 (a b : Z) : Z :=
  let e := (Z.log2 a - Z.log2 b)%Z in
  if reaches_pow2 a b e then e else (e - 1)%Z.

(** The exponent of the spacing of the binary64 values around [a / b]. *)
Definition spacing (a b : Z) : Z := Z.max (floor_log2 a b - 52) (-1074).

(** The multiple of the spacing nearest to [a / b], for positive [a] and
    [b]. *)
Definition round_pos (a b : Z) : Q :=
  let u := spacing a b in
  let n := round_half_even (a * 2 ^ Z.max (- u) 0) (b * 2 ^ Z.max u 0) in
  (n * 2 ^ Z.max u 0 # Z.to_pos (2 ^ Z.max (- u) 0))%Q.

(** The binary64 value nearest to [q]. *)
Definition round (q : Qc) : Qc :=
  match Qnum q with
  | Z0 => 0%Qc
  | Zpos a => Q2Qc (round_pos (Zpos a) (Zpos (Qden q)))
  | Zneg a => (- Q2Qc (round_pos (Zpos a) (Zpos (Qden q))))%Qc
  end.

(** Halfway between the largest finite value and [2 ^ 1024]: a result of
    this magnitude or more rounds out of the finite range. *)
Definition out_of_range : Qc := Q2Qc (inject_Z (2 ^ 1024 - 2 ^ 970)).

Definition overflows (q : Qc) : bool :=
  bool_decide (out_of_range ≤ q)%Qc || bool_decide (q ≤ - out_of_range)%Qc.

(** [i / u] on integers (true division): the quotient, correctly rounded. *)
Definition truediv (i u : Z) : result Qc :=
  if bool_decide (u = 0%Z) then Raise ZeroDivisionError
  else
    let q := Q2Qc (inject_Z i / inject_Z u) in
    if overflows q then Raise OverflowError else Ok (round q).

(** [x * y] and [x + y] on floats; the operands below are at most 1.0, so
    that no product or sum leaves the finite range. *)
Definition mul (x y : Qc) : Qc := round (x * y).
Definition add (x y : Qc) : Qc := round (x + y).

(** The literals [0.6] and [0.4]. *)
Definition w_name : Qc := round (Q2Qc (6 # 10)).
Definition w_keyword : Qc := round (Q2Qc (4 # 10)).

(** [name_similarity], [keyword_similarity] and [combined_similarity] with
    the arithmetic above. *)
Definition name_similarity (a b : string) : result Qc :=
  let words_a : gset string := name_words a in
  let words_b : gset string := name_words b in
  if bool_decide (words_a = ∅) || bool_decide (words_b = ∅) then Ok 0%Qc
  else
    let intersection := words_a ∩ words_b in
    let union := words_a ∪ words_b in
    truediv (Py.len intersection) (Py.len union).

Definition keyword_similarity (a b : list string) : result Qc :=
  let set_a : gset string := list_to_set a in
  let set_b : gset string := list_to_set b in
  if bool_decide (set_a = ∅) || bool_decide (set_b = ∅) then Ok 0%Qc
  else
    let intersection := set_a ∩ set_b in
    let union := set_a ∪ set_b in
    truediv (Py.len intersection) (Py.len union).

Definition combined_similarity (ours theirs : Component) : result Qc :=
  do ns <- name_similarity (name ours) (name theirs);
  do ks <- keyword_similarity (keywords ours) (keywords theirs);
  let ns := if bool_decide (name ours = name theirs) then 1%Qc else ns in
  Ok (add (mul w_name ns) (mul w_keyword ks)).

End Binary64.

(* ------------------------------------------------------------------------- *)
(** ** Comparison engine *)

Record Match : Type := mkMatch {
  ours : Component;
  theirs : Component;
  similarity : Qc;
  size_ratio : Qc   (* theirs.line_count / ours.line_count *)
}.

(** The loops below compute the scores in [Binary64]; a threshold is a
    finite float. *)

(** [matches.sort(key=lambda m: m.similarity, reverse=True)]: a match goes
    before another when its similarity is strictly greater. *)
Definition similarity_desc (x m : Match) : bool :=
  bool_decide (similarity m < similarity x)%Qc.

Definition sort_desc (matches : list Match) : list Match :=
  Py.stable_sort similarity_desc matches.

(** The inner loop of [find_overlaps]: [for theirs in external_components]. *)
Fixpoint find_overlaps_inner (ours : Component) (external_components : list Component)
    (threshold : Qc) (matches : list Match) : result (list Match) :=
  match external_components with
  | [] => Ok matches
  | theirs :: rest =>
      if bool_decide (kind ours <> kind theirs)
      then find_overlaps_inner ours rest threshold matches
      else
        do sim <- Binary64.combined_similarity ours theirs;
        if bool_decide (threshold ≤ sim)%Qc then
          do size_ratio <- Binary64.truediv (line_count theirs) (Z.max (line_count ours) 1);
          find_overlaps_inner ours rest threshold
            (matches ++ [mkMatch ours theirs sim size_ratio])
        else find_overlaps_inner ours rest threshold matches
  end.

(** The outer loop: [for ours in our_components]. *)
Fixpoint find_overlaps_outer (our_components external_components : list Component)
    (threshold : Qc) (matches : list Match) : result (list Match) :=
  match our_components with
  | [] => Ok matches
  | ours :: rest =>
      do matches <- find_overlaps_inner ours external_components threshold matches;
      find_overlaps_outer rest external_components threshold matches
  end.

Definition find_overlaps (our_components external_components : list Component)
    (threshold : Qc) : result (list Match) :=
  do matches <- find_overlaps_outer our_components external_components threshold [];
  Ok (sort_desc matches).

(** The inner loop of [find_unmatched]: [for ours in our_components], with
    the running [best_sim]. *)
Fixpoint find_unmatched_best (ext : Component) (our_components : list Component)
    (best_sim : Qc) : result Qc :=
  match our_components with
  | [] => Ok best_sim
  | ours :: rest =>
      if bool_decide (kind ours <> kind ext)
      then find_unmatched_best ext rest best_sim
      else
        do sim <- Binary64.combined_similarity ours ext;
        find_unmatched_best ext rest (Py.max best_sim sim)
  end.

(** The outer loop: [for ext in external_components]. *)
Fixpoint find_unmatched_loop (external_components our_components : list Component)
    (our_names : gset string) (threshold : Qc) (unmatched : list Component)
    : result (list Component) :=
  match external_components with
  | [] => Ok unmatched
  | ext :: rest =>
      do best_sim <- find_unmatched_best ext our_components 0%Qc;
      if bool_decide (best_sim < threshold)%Qc && bool_decide (name ext ∉ our_names)
      then find_unmatched_loop rest our_components our_names threshold (unmatched ++ [ext])
      else find_unmatched_loop rest our_components our_names threshold unmatched
  end.

Definition find_unmatched (external_components our_components : list Component)
    (threshold : Qc) : result (list Component) :=
  let our_names : gset string := list_to_set (name <$> our_components) in
  find_unmatched_loop external_components our_components our_names threshold [].

(* ------------------------------------------------------------------------- *)
(** ** Cache for incremental runs *)

Local Unset Elimination Schemes.
Inductive json : Type :=
  | JNull
  | JBool (b : bool)
  | JInt (z : Z)
  | JStr (s : string)
  | JList (l : list json).
Local Set Elimination Schemes.

(** The views of a JSON value at the types the dataclass declares. *)
Definition as_str (field : string) (v : json) : result string :=
  match v with
  | JStr s => Ok s
  | _ => Raise (IllTyped field)
  end.

Definition as_int (field : string) (v : json) : result Z :=
  match v with
  | JInt z => Ok z
  | _ => Raise (IllTyped field)
  end.

Definition as_bool (field : string) (v : json) : result bool :=
  match v with
  | JBool b => Ok b
  | _ => Raise (IllTyped field)
  end.

Fixpoint as_strs (field : string) (l : list json) : result (list string) :=
  match l with
  | [] => Ok []
  | v :: l' =>
      do s <- as_str field v;
      do ss <- as_strs field l';
      Ok (s :: ss)
  end.

Definition as_str_list (field : string) (v : json) : result (list string) :=
  match v with
  | JList l => as_strs field l
  | _ => Raise (IllTyped field)
  end.

(** [d[key]] *)
Definition getitem (d : gmap string json) (key : string) : result json :=
  match d !! key with
  | Some v => Ok v
  | None => Raise (KeyError key)
  end.

(** [d.get(key, dflt)] *)
Definition get (d : gmap string json) (key : string) (dflt : json) : json :=
  default dflt (d !! key).

(** The dictionary [save_catalog] appends for one component. *)
Definition save_record (c : Component) : gmap string json :=
  <["kind" := JStr (kind c)]>
  (<["name" := JStr (name c)]>
  (<["repo" := JStr (repo c)]>
  (<["path" := JStr (path c)]>
  (<["description" := JStr (description c)]>
  (<["keywords" := JList (JStr <$> keywords c)]>
  (<["line_count" := JInt (line_count c)]>
  (<["has_references" := JBool (has_references c)]>
  (<["reference_files" := JList (JStr <$> reference_files c)]> ∅)))))))).

(** [save_catalog]: the content written to the cache file. *)
Definition save_catalog (components : list Component) : list (gmap string json) :=
  foldl (λ data c, data ++ [save_record c]) [] components.

(** One element of the list comprehension of [load_catalog]: the four
    subscriptions and the five [get]s in order, then the construction of the
    [Component]. *)
Definition load_record (d : gmap string json) : result Component :=
  do kind_ <- getitem d "kind";
  do name_ <- getitem d "name";
  do repo_ <- getitem d "repo";
  do path_ <- getitem d "path";
  let description_ := get d "description" (JStr "") in
  let keywords_ := get d "keywords" (JList []) in
  let line_count_ := get d "line_count" (JInt 0) in
  let has_references_ := get d "has_references" (JBool false) in
  let reference_files_ := get d "reference_files" (JList []) in
  do kind_ <- as_str "kind" kind_;
  do name_ <- as_str "name" name_;
  do repo_ <- as_str "repo" repo_;
  do path_ <- as_str "path" path_;
  do description_ <- as_str "description" description_;
  do keywords_ <- as_str_list "keywords" keywords_;
  do line_count_ <- as_int "line_count" line_count_;
  do has_references_ <- as_bool "has_references" has_references_;
  do reference_files_ <- as_str_list "reference_files" reference_files_;
  Ok (mkComponent kind_ name_ repo_ path_ description_ keywords_ ∅
        line_count_ has_references_ reference_files_).

Fixpoint load_records (data : list (gmap string json)) : result (list Component) :=
  match data with
  | [] => Ok []
  | d :: data' =>
      do c <- load_record d;
      do cs <- load_records data';
      Ok (c :: cs)
  end.

(** [load_catalog]: [cache] is the content of the cache file, [None] when the
    file does not exist. *)
Definition load_catalog (cache : option (list (gmap string json)))
    : result (list Component) :=
  match cache with
  | None => Ok []
  | Some data => load_records data
  end.

(* ------------------------------------------------------------------------- *)
(** ** Report generation *)

(** [not filter_kind or kind == filter_kind]: no filter, or the empty
    string, lets every kind through. *)
Definition kind_kept (filter_kind : option string) (kind_ : string) : bool :=
  match filter_kind with
  | None => true
  | Some f => bool_decide (f = "") || bool_decide (kind_ = f)
  end.

Definition half : Qc := Q2Qc (1 # 2).

Section Report.
(** The timestamp [datetime.now().strftime("%Y-%m-%d %H:%M")] and the
    float formats [{:.2f}] and [{:.1f}]. *)
Variable now : string.
Variable fmt_2f : Qc -> string.
Variable fmt_1f : Qc -> string.

Definition inventory_row (c : Component) : string :=
  let kw := Py.join ", " (take 5 (keywords c)) in
  let ref := if has_references c then "yes" else "-" in
  "| " +:+ name c +:+ " | " +:+ pretty (line_count c) +:+ " | " +:+ ref
  +:+ " | " +:+ kw +:+ " |".

(** The body of [for kind in ["skill", "agent"]]. *)
Definition inventory_section (our_filtered : list Component) (kind_ : string)
    : list string :=
  let items := filter (λ c, kind c = kind_) our_filtered in
  match items with
  | [] => []
  | _ :: _ =>
      [ "### " +:+ Py.title kind_ +:+ "s (" +:+ pretty (length items) +:+ ")";
        "";
        "| Name | Lines | References | Keywords (sample) |";
        "|------|------:|:----------:|-------------------|" ]
      ++ (inventory_row <$>
            Py.stable_sort (λ x m, String.ltb (name x) (name m)) items)
      ++ [ "" ]
  end.

Definition repo_summary (filter_kind : option string)
    (item : string * list Component) : string :=
  let '(repo_name, components) := item in
  let filtered := filter (λ c, kind_kept filter_kind (kind c)) components in
  let skills := filter (λ c, kind c = "skill") filtered in
  let agents := filter (λ c, kind c = "agent") filtered in
  "- **" +:+ repo_name +:+ "**: " +:+ pretty (length skills) +:+ " skills, "
  +:+ pretty (length agents) +:+ " agents".

Definition overlap_row (m : Match) : string :=
  "| " +:+ name (ours m) +:+ " | " +:+ name (theirs m) +:+ " | "
  +:+ repo (theirs m) +:+ " " +:+
  "| " +:+ fmt_2f (similarity m) +:+ " | " +:+ pretty (line_count (ours m))
  +:+ " | " +:+ pretty (line_count (theirs m)) +:+ " " +:+
  "| " +:+ fmt_1f (size_ratio m) +:+ "x |".

(** The loop over [filtered_matches] with the set [seen]. *)
Fixpoint overlap_rows (ms : list Match) (seen : gset (string * string * string))
    : list string :=
  match ms with
  | [] => []
  | m :: ms' =>
      let key := (name (ours m), name (theirs m), repo (theirs m)) in
      if bool_decide (key ∈ seen) then overlap_rows ms' seen
      else overlap_row m :: overlap_rows ms' (seen ∪ {[ key ]})
  end.

Definition high_match_block (m : Match) : list string :=
  [ "- **" +:+ name (ours m) +:+ "** vs **" +:+ name (theirs m) +:+ "** ("
    +:+ repo (theirs m) +:+ ")";
    "  - Similarity: " +:+ fmt_2f (similarity m);
    "  - Size: " +:+ pretty (line_count (ours m)) +:+ " vs "
    +:+ pretty (line_count (theirs m)) +:+ " lines ("
    +:+ fmt_1f (size_ratio m) +:+ "x)";
    "  - Our path: `" +:+ path (ours m) +:+ "`";
    "  - Their path: `" +:+ path (theirs m) +:+ "`" ]
  ++ (if bool_decide (description (ours m) <> "")
         && bool_decide (description (theirs m) <> "")
      then [ "  - Our desc: " +:+ Py.slice_to 100 (description (ours m));
             "  - Their desc: " +:+ Py.slice_to 100 (description (theirs m)) ]
      else [])
  ++ [ "" ].

Definition unmatched_row (c : Component) : string :=
  let desc :=
    if bool_decide (80 < String.length (description c))
    then Py.slice_to 80 (description c) +:+ "..."
    else description c in
  "| " +:+ kind c +:+ " | " +:+ name c +:+ " | " +:+ pretty (line_count c)
  +:+ " | " +:+ desc +:+ " |".

(** [sorted(components, key=lambda x: (x.kind, x.name))] *)
Definition kind_name_before (x m : Component) : bool :=
  String.ltb (kind x) (kind m)
  || (String.eqb (kind x) (kind m) && String.ltb (name x) (name m)).

Definition unmatched_repo_block (item : string * list Component) : list string :=
  let '(repo_name, components) := item in
  [ "### " +:+ repo_name;
    "";
    "| Kind | Name | Lines | Description |";
    "|------|------|------:|-------------|" ]
  ++ (unmatched_row <$> Py.stable_sort kind_name_before components)
  ++ [ "" ].

(** [by_repo.setdefault(c.repo, []).append(c)] *)
Definition group_by_repo (by_repo : gmap string (list Component)) (c : Component)
    : gmap string (list Component) :=
  <[repo c := default [] (by_repo !! repo c) ++ [c]]> by_repo.

(** The list [lines] at the end of [generate_report]. *)
Definition generate_report_lines
    (our_components : list Component)
    (external_by_repo : gmap string (list Component))
    (matches : list Match)
    (unmatched : list Component)
    (filter_kind : option string) : list string :=
  let lines :=
    [ "# Repo Comparison Report"; ""; "Generated: " +:+ now; "";
      "## Our Plugin Inventory"; "" ] in
  let our_filtered :=
    filter (λ c, kind_kept filter_kind (kind c)) our_components in
  let lines :=
    foldl (λ lines kind_, lines ++ inventory_section our_filtered kind_)
      lines ["skill"; "agent"] in
  (* External repos summary *)
  let lines := lines ++ [ "## External Repos Scanned"; "" ] in
  let lines :=
    lines ++ (repo_summary filter_kind <$> Py.sorted_items external_by_repo) in
  let lines := lines ++ [ "" ] in
  (* Overlaps *)
  let filtered_matches :=
    filter (λ m, kind_kept filter_kind (kind (ours m))) matches in
  let lines :=
    lines ++ [ "## Overlapping Components (" +:+ pretty (length filtered_matches)
               +:+ " matches)"; "" ] in
  let lines :=
    match filtered_matches with
    | [] => lines
    | _ :: _ =>
        lines
        ++ [ "| Ours | Theirs | Repo | Sim | Our Lines | Their Lines | Ratio |";
             "|------|--------|------|----:|----------:|------------:|------:|" ]
        ++ overlap_rows filtered_matches ∅
        ++ [ "" ]
    end in
  (* High-similarity matches *)
  let high_matches := filter (λ m, (half ≤ similarity m)%Qc) filtered_matches in
  let lines :=
    match high_matches with
    | [] => lines
    | _ :: _ =>
        lines
        ++ [ "### High-Similarity Matches (>=0.50)"; "";
             "These are likely the same or very similar components. Compare in detail.";
             "" ]
        ++ concat (high_match_block <$> high_matches)
    end in
  (* Unmatched external components *)
  let filtered_unmatched :=
    filter (λ c, kind_kept filter_kind (kind c)) unmatched in
  let lines :=
    lines ++ [ "## Unmatched External Components ("
               +:+ pretty (length filtered_unmatched) +:+ " items)"; "";
               "These exist in external repos but have no counterpart in our plugin.";
               "" ] in
  let lines :=
    match filtered_unmatched with
    | [] => lines
    | _ :: _ =>
        let by_repo := foldl group_by_repo ∅ filtered_unmatched in
        lines ++ concat (unmatched_repo_block <$> Py.sorted_items by_repo)
    end in
  (* Statistics *)
  let lines := lines ++ [ "## Statistics"; "" ] in
  let total_ext :=
    sum_list (length <$> (map_to_list external_by_repo).*2) in
  lines ++
  [ "- Our components: " +:+ pretty (length our_filtered);
    "- External components scanned: " +:+ pretty total_ext;
    "- Overlapping matches: " +:+ pretty (length filtered_matches);
    "- High-similarity (>=0.50): " +:+ pretty (length high_matches);
    "- Unmatched external: " +:+ pretty (length filtered_unmatched);
    "" ].

Definition generate_report
    (our_components : list Component)
    (external_by_repo : gmap string (list Component))
    (matches : list Match)
    (unmatched : list Component)
    (filter_kind : option string) : string :=
  Py.join (String Py.newline "")
    (generate_report_lines our_components external_by_repo matches unmatched
       filter_kind).
End Report.

(* ------------------------------------------------------------------------- *)
(** ** Vocabulary of the properties

    Total views of the scores, the discovery order of the pairwise loop, the
    specification-side readings used to compare with the code, and the
    sample inputs. *)

(** The body shared by [name_similarity] and [keyword_similarity]. *)
Definition jaccard (set_a set_b : gset string) : result Qc :=
  if bool_decide (set_a = ∅) || bool_decide (set_b = ∅) then Ok 0%Qc
  else Py.truediv (Py.len (set_a ∩ set_b)) (Py.len (set_a ∪ set_b)).

(** The body shared by the two sub-scores in [Binary64]. *)
Definition jaccard64 (set_a set_b : gset string) : result Qc :=
  if bool_decide (set_a = ∅) || bool_decide (set_b = ∅) then Ok 0%Qc
  else Binary64.truediv (Py.len (set_a ∩ set_b)) (Py.len (set_a ∪ set_b)).

(** A skill without keywords. *)
Definition c_pdf : Component :=
  mkComponent "skill" "pdf-export" "ours" "skills/pdf-export/SKILL.md" "" [] ∅ 0 false [].

(** A skill with two keywords. *)
Definition c_fix : Component :=
  mkComponent "skill" "fix-bug" "ours" "skills/fix-bug/SKILL.md" ""
    ["bug"; "fix"] ∅ 12 false [].

(** The score a computation returns, 0 standing in for an exception. *)
Definition score (r : result Qc) : Qc :=
  match r with
  | Ok q => q
  | Raise _ => 0%Qc
  end.

(** The value [combined_similarity] returns in binary64; see
    [combined_similarity_ok]. *)
Definition sim_of (a b : Component) : Qc := score (Binary64.combined_similarity a b).

(** The exact quotient of [theirs.line_count / max(ours.line_count, 1)]. *)
Definition exact_ratio (a b : Component) : Qc :=
  Q2Qc (inject_Z (line_count b) / inject_Z (Z.max (line_count a) 1)).

(** The value of [theirs.line_count / max(ours.line_count, 1)], when the
    division returns. *)
Definition ratio_of (a b : Component) : Qc := Binary64.round (exact_ratio a b).

(** [0.6 * ns + 0.4 * ks] in binary64 arithmetic, the weights being the
    doubles nearest to 0.6 and 0.4. *)
Definition combined_binary64 (ns ks : float) : float :=
  (0x1.3333333333333p-1 * ns + 0x1.999999999999ap-2 * ks)%float.

(** The order of a list sorted by similarity, descending. *)
Definition by_similarity_desc (m1 m2 : Match) : Prop :=
  (similarity m2 ≤ similarity m1)%Qc.

Abbreviation insert_desc := (Py.insert_stable similarity_desc).

(** The size ratio of a pair is within the range of a float. *)
Definition ratio_in_range (p : Component * Component) : Prop :=
  Binary64.overflows (exact_ratio p.1 p.2) = false.

Global Instance ratio_in_range_dec p : Decision (ratio_in_range p).
Proof. unfold ratio_in_range. apply _. Defined.

(** The pair a match was built from. *)
Definition pair_of (m : Match) : Component * Component := (ours m, theirs m).

(** The match [find_overlaps] builds for a pair. *)
Definition match_of (p : Component * Component) : Match :=
  mkMatch p.1 p.2 (sim_of p.1 p.2) (ratio_of p.1 p.2).

(** A pair qualifies when the kinds agree and the similarity reaches the
    threshold. *)
Definition qualifies (threshold : Qc) (p : Component * Component) : Prop :=
  kind p.1 = kind p.2 /\ (threshold ≤ sim_of p.1 p.2)%Qc.

Global Instance qualifies_dec threshold p : Decision (qualifies threshold p).
Proof. unfold qualifies. apply _. Defined.

(** The qualifying pairs in the order the pairwise loop meets them: [ours]
    outermost, [external] innermost. *)
Definition discovery_order (our_components external_components : list Component)
    (threshold : Qc) : list (Component * Component) :=
  filter (qualifies threshold) (list_prod our_components external_components).

(** The condition under which [find_unmatched] keeps an external component. *)
Definition is_gap (our_components : list Component) (threshold : Qc)
    (ext : Component) : Prop :=
  (0 < threshold)%Qc /\
  (forall o, o ∈ our_components -> kind o = kind ext ->
     exists s, Binary64.combined_similarity o ext = Ok s /\ (s < threshold)%Qc) /\
  (forall o, o ∈ our_components -> name o <> name ext).


(** An external skill with the name and the keywords of [c_fix], as a cache
    file can give it: a line count beyond the range of a float. *)
Definition c_huge : Component :=
  mkComponent "skill" "fix-bug" "theirs" "skills/fix-bug/SKILL.md" ""
    ["bug"; "fix"] ∅ (10 ^ 400) false [].

(** An external skill without keywords whose name shares one word in three
    with that of [c_fix]. *)
Definition c_fix_bugs : Component :=
  mkComponent "skill" "fix-bugs" "theirs" "skills/fix-bugs/SKILL.md" "" [] ∅ 20 false [].

(** Two skills of ours and two external ones: the names of the first pair
    share two words in three and no keyword, those of the second pair share
    no word and all keywords. *)
Definition c_two_thirds : Component :=
  mkComponent "skill" "fix-bug-now" "ours" "skills/fix-bug-now/SKILL.md" "" [] ∅ 10 false [].
Definition c_two_thirds' : Component :=
  mkComponent "skill" "fix-bug" "theirs" "skills/fix-bug/SKILL.md" "" [] ∅ 10 false [].
Definition c_same_keywords : Component :=
  mkComponent "skill" "alpha" "ours" "skills/alpha/SKILL.md" "" ["deploy"] ∅ 10 false [].
Definition c_same_keywords' : Component :=
  mkComponent "skill" "beta" "theirs" "skills/beta/SKILL.md" "" ["deploy"] ∅ 10 false [].

(** The floats [0.2] and [0.3]. *)
Definition float_0_2 : Qc := Binary64.round (Q2Qc (2 # 10)).
Definition float_0_3 : Qc := Binary64.round (Q2Qc (3 # 10)).

(** The value of a primitive float that is a number. *)
Definition value_of (f : float) : option Q :=
  match Prim2SF f with
  | S754_zero _ => Some 0%Q
  | S754_finite s m e =>
      let v := if (0 <=? e)%Z then (Zpos m * 2 ^ e # 1)%Q
               else (Zpos m # Z.to_pos (2 ^ (- e)))%Q in
      Some (Qred (if s then Qopp v else v))
  | _ => None
  end.

(** [0.6 * (i / u) + 0.4 * (j / v)] on primitive floats, for small
    integers. *)
Definition primitive_combined (i u j v : Z) : float :=
  (0x1.3333333333333p-1 * (of_uint63 (Uint63.of_Z i) / of_uint63 (Uint63.of_Z u))
   + 0x1.999999999999ap-2 * (of_uint63 (Uint63.of_Z j) / of_uint63 (Uint63.of_Z v)))%float.

(** The same sum in [Binary64]. *)
Definition binary64_combined (i u j v : Z) : Qc :=
  Binary64.add
    (Binary64.mul Binary64.w_name (Binary64.round (Q2Qc (inject_Z i / inject_Z u))))
    (Binary64.mul Binary64.w_keyword (Binary64.round (Q2Qc (inject_Z j / inject_Z v)))).

(** Whether the two agree on every [i <= u <= n] and [j <= v <= n], [u] and
    [v] positive. *)
Definition agree_at (i u j v : Z) : bool :=
  match value_of (primitive_combined i u j v) with
  | Some q => Qeq_bool q (binary64_combined i u j v)
  | None => false
  end.

Definition agree_up_to (n : nat) : bool :=
  forallb (λ u, forallb (λ i, forallb (λ v, forallb (λ j,
    agree_at (Z.of_nat i) (Z.of_nat u) (Z.of_nat j) (Z.of_nat v))
    (seq 0 (S v))) (seq 1 n)) (seq 0 (S u))) (seq 1 n).

(** Every keyword collected so far is its own lower-casing. *)
Definition all_lower (keywords : gset string) : Prop :=
  forall k, k ∈ keywords -> Py.lower k = k.

(** The name-derived keywords as the specification words them: the name is
    split on hyphen and on underscore, and the words longer than two
    characters are kept, lower-cased. *)
Definition name_keywords_by_spec (name : string) : gset string :=
  list_to_set
    (Py.lower <$>
       filter (λ part, 2 < String.length part)
         (Py.split (Py.replace underscore blank (Py.replace hyphen blank name)))).

(** [n] copies of the character [c]. *)
Fixpoint rep (n : nat) (c : ascii) : string :=
  match n with
  | O => EmptyString
  | S n' => String c (rep n' c)
  end.

(** [s] is not empty and [strip] with the class [p] leaves it alone at both
    ends. *)
Definition untouched (p : ascii -> bool) (s : string) : Prop :=
  s <> EmptyString /\ Py.lstrip_with p s = s /\ Py.rstrip_with p s = s.

(** No character of [s] is a line boundary. *)
Fixpoint one_line (s : string) : bool :=
  match s with
  | EmptyString => true
  | String c s' => negb (Py.is_linebreak c) && one_line s'
  end.

(** The line feed as a string. *)
Definition nl : string := String Py.newline "".

(** A document whose frontmatter block is the single line [line]. *)
Definition one_line_document (line : string) : string :=
  "---" +:+ nl +:+ line +:+ nl +:+ "---" +:+ nl.

(** A quoted value: [v] inside [n'] and [m'] single quotes inside [n] and [m]
    double quotes. *)
Definition quoted (n n' : nat) (v : string) (m' m : nat) : string :=
  rep n double_quote +:+ (rep n' single_quote +:+ v +:+ rep m' single_quote)
  +:+ rep m double_quote.

(** The line [key: value] with [k] blanks after the colon. *)
Definition key_value_line (key : string) (k : nat) (value : string) : string :=
  key +:+ String ":" (rep k blank +:+ value).





(** The first character of [s] is in the class [p]. *)
Definition starts_in (p : ascii -> bool) (s : string) : bool :=
  match s with
  | EmptyString => false
  | String c _ => p c
  end.



(** The value [x] inside double quotes inside single quotes, and the other
    way round. *)
Definition double_in_single (x : string) : string :=
  rep 1 single_quote +:+ (rep 1 double_quote +:+ x +:+ rep 1 double_quote)
  +:+ rep 1 single_quote.
Definition single_in_double (x : string) : string :=
  rep 1 double_quote +:+ (rep 1 single_quote +:+ x +:+ rep 1 single_quote)
  +:+ rep 1 double_quote.

(** A document whose block has four lines: a name in double quotes inside
    single quotes, an empty description, a comment, and the name again, in
    single quotes inside double quotes. *)
Definition doc_four_lines : string :=
  "---" +:+ nl
  +:+ key_value_line "name" 1 (double_in_single "x") +:+ nl
  +:+ key_value_line "description" 0 "" +:+ nl
  +:+ "# name: hidden" +:+ nl
  +:+ key_value_line "name" 2 (single_in_double "y") +:+ nl
  +:+ "---" +:+ nl.

(** The document whose block is the line [name:] followed by [my skill]
    wrapped in two layers of double quotes. *)
Definition doc_two_layers : string :=
  one_line_document (key_value_line "name" 1 (quoted 2 0 "my skill" 0 2)).

(** The component a cache round trip gives back: the frontmatter is not
    stored. *)
Definition without_frontmatter (c : Component) : Component :=
  mkComponent (kind c) (name c) (repo c) (path c) (description c) (keywords c) ∅
    (line_count c) (has_references c) (reference_files c).

(** The optional fields of a record are absent or of the declared type. *)
Definition optional_typed (d : gmap string json) : Prop :=
  (d !! "description" = None \/ exists s, d !! "description" = Some (JStr s)) /\
  (d !! "keywords" = None \/ exists l, d !! "keywords" = Some (JList (JStr <$> l))) /\
  (d !! "line_count" = None \/ exists z, d !! "line_count" = Some (JInt z)) /\
  (d !! "has_references" = None \/ exists b, d !! "has_references" = Some (JBool b)) /\
  (d !! "reference_files" = None \/
     exists l, d !! "reference_files" = Some (JList (JStr <$> l))).

(** The four keys [load_catalog] subscripts. *)
Definition required_keys : list string := ["kind"; "name"; "repo"; "path"].

(** An external agent. *)
Definition c_reviewer : Component :=
  mkComponent "agent" "reviewer" "ext" "agents/reviewer.md" "" [] ∅ 10 false [].

(** The external catalog of one repository holding one agent. *)
Definition one_agent_repo : gmap string (list Component) :=
  {[ "ext" := [c_reviewer] ]}.

(* ------------------------------------------------------------------------- *)
(** ** Vocabulary of the further properties *)

(** A frontmatter key as [parse_frontmatter] stores it: trimmed, without a
    colon, and not starting a comment. *)
Definition clean_key (key : string) : Prop :=
  Py.strip key = key /\ Py.contains ":" key = false /\ Py.startswith "#" key = false.

(** A frontmatter value as [parse_frontmatter] stores it: stripping single
    quotes again changes nothing, so it neither starts nor ends with one. *)
Definition clean_value (val : string) : Prop :=
  Py.strip_char single_quote val = val.

(** Every entry of a mapping has a clean key and a clean value. *)
Definition clean_mapping (result : gmap string string) : Prop :=
  forall key val, result !! key = Some val -> clean_key key /\ clean_value val.


(** Every keyword of a set satisfies [P]. *)
Definition keywords_all (P : string -> Prop) (keywords : gset string) : Prop :=
  forall k, k ∈ keywords -> P k.

(** The parts of a component name that [extract_keywords] looks at. *)
Definition name_parts (name : string) : list string :=
  Py.split (Py.replace hyphen blank name).


(** An external agent with the name of [c_fix] and its keywords in another
    order, one of them twice. *)
Definition c_fix_agent : Component :=
  mkComponent "agent" "fix-bug" "theirs" "agents/fix-bug.md" "Fixes bugs"
    ["fix"; "bug"; "bug"] ∅ 40 false [].

(** An external skill with the name of [c_fix] and no keyword. *)
Definition c_fix_theirs : Component :=
  mkComponent "skill" "fix-bug" "theirs" "skills/fix-bug/SKILL.md" "" [] ∅ 30 false [].

(** An external skill that shares neither a name word nor a keyword with
    [c_fix]. *)
Definition c_deploy : Component :=
  mkComponent "skill" "deploy-site" "theirs" "skills/deploy-site/SKILL.md" ""
    ["deploy"] ∅ 7 false [].

(** The default threshold of the script, the float [0.15]. *)
Definition default_threshold : Qc := Binary64.round (Q2Qc (15 # 100)).


(** The nine keys of a cached record. *)
Definition record_keys : gset string :=
  list_to_set ["kind"; "name"; "repo"; "path"; "description"; "keywords";
               "line_count"; "has_references"; "reference_files"].

(** A cached record without its [path]. *)
Definition record_without_path : gmap string json :=
  <["kind" := JStr "skill"]>
  (<["name" := JStr "fix-bug"]> (<["repo" := JStr "ours"]> ∅)).

(** The key under which the matches table shows a match once. *)
Definition match_key (m : Match) : string * string * string :=
  (name (ours m), name (theirs m), repo (theirs m)).

(** The matches of a list that are the first with their key, in the order
    of the list: the head is kept, and the later matches with its key are
    left out. *)
Fixpoint first_of_each_key (ms : list Match) : list Match :=
  match ms with
  | [] => []
  | m :: ms' => m :: filter (λ m', match_key m' <> match_key m) (first_of_each_key ms')
  end.

(* ------------------------------------------------------------------------- *)
(** ** Main: grouping the external components by repository *)

(** [c.repo.split("/")[0] if "/" in c.repo else c.repo]; [split] returns at
    least one field, so the subscript does not fail. *)
Definition repo_key (c : Component) : string :=
  if Py.contains "/" (repo c)
  then default EmptyString (head (Py.split_on "/" (repo c)))
  else repo c.

(** [external_by_repo.setdefault(repo_key, []).append(c)] *)
Definition group_external (external_by_repo : gmap string (list Component))
    (c : Component) : gmap string (list Component) :=
  <[repo_key c := default [] (external_by_repo !! repo_key c) ++ [c]]> external_by_repo.

(** The dictionary [external_by_repo] that [main] builds from the external
    components. *)
Definition group_by_repo_key (external_components : list Component)
    : gmap string (list Component) :=
  foldl group_external ∅ external_components.

(** [total_ext] of [generate_report]: [sum(len(v) for v in d.values())]. *)
Definition total_ext (external_by_repo : gmap string (list Component)) : nat :=
  sum_list (length <$> (map_to_list external_by_repo).*2).

(** An external agent of a plugin inside a repository. *)
Definition c_nested : Component :=
  mkComponent "agent" "planner" "toolbox/core" "agents/planner.md" "" [] ∅ 5 false [].

(* ========================================================================= *)
(** * Properties *)

(** ** Rational arithmetic helpers *)

Lemma Ok_inj {A : Type} (a b : A) : Ok a = Ok b -> a = b.
Proof. intros H. injection H. trivial. Qed.

Lemma weights_sum : (w_name * 1 + w_keyword * 1 = 1)%Qc.
Proof. apply Qc_is_canon. reflexivity. Qed.

Lemma weights_name_only : (w_name * 1 + w_keyword * 0 = w_name)%Qc.
Proof. ring. Qed.

Lemma Q2Qc_bounds (q : Q) :
  (0 <= q)%Q -> (q <= 1)%Q -> (0 ≤ Q2Qc q)%Qc /\ (Q2Qc q ≤ 1)%Qc.
Proof.
  intros H0 H1. unfold Qcle. simpl. rewrite !Qred_correct. split; assumption.
Qed.

Lemma weighted_bounds (ns ks : Qc) :
  (0 ≤ ns)%Qc -> (ns ≤ 1)%Qc -> (0 ≤ ks)%Qc -> (ks ≤ 1)%Qc ->
  (0 ≤ w_name * ns + w_keyword * ks)%Qc /\ (w_name * ns + w_keyword * ks ≤ 1)%Qc.
Proof.
  unfold Qcle. intros Hn0 Hn1 Hk0 Hk1. unfold w_name, w_keyword. simpl in *.
  rewrite !Qred_correct.
  change (Qred 0) with 0%Q in *. change (Qred 1) with 1%Q in *.
  split; lra.
Qed.

(** At the sub-scores 0.0 and 1.0 the binary64 sum is the double nearest to
    the rational one: 0.0, 0.4, 0.6 and exactly 1.0. *)
Lemma binary64_corners :
  combined_binary64 0 0 = 0%float /\
  combined_binary64 0 1 = 0x1.999999999999ap-2%float /\
  combined_binary64 1 0 = 0x1.3333333333333p-1%float /\
  combined_binary64 1 1 = 1%float.
Proof. repeat split; vm_compute; reflexivity. Qed.

(** ** The Jaccard index *)

Lemma name_similarity_jaccard a b :
  name_similarity a b = jaccard (name_words a) (name_words b).
Proof. reflexivity. Qed.

Lemma keyword_similarity_jaccard a b :
  keyword_similarity a b = jaccard (list_to_set a) (list_to_set b).
Proof. reflexivity. Qed.

Lemma truediv_bounds (i u : Z) :
  (0 <= i <= u)%Z -> u <> 0%Z ->
  exists q, Py.truediv i u = Ok q /\ (0 ≤ q)%Qc /\ (q ≤ 1)%Qc.
Proof.
  intros Hle Hu. unfold Py.truediv.
  rewrite bool_decide_eq_false_2 by done.
  eexists. split; [reflexivity|].
  assert (Hpos : (0 < inject_Z u)%Q) by (unfold Qlt; simpl; lia).
  apply Q2Qc_bounds.
  - apply Qle_shift_div_l; [exact Hpos|]. unfold Qle; simpl; lia.
  - apply Qle_shift_div_r; [exact Hpos|]. unfold Qle; simpl; lia.
Qed.

Lemma truediv_diag (n : Z) : n <> 0%Z -> Py.truediv n n = Ok 1%Qc.
Proof.
  intros Hn. unfold Py.truediv. rewrite bool_decide_eq_false_2 by done.
  f_equal. apply Qc_is_canon. simpl. rewrite Qred_correct.
  apply Qmult_inv_r. unfold Qeq; simpl; lia.
Qed.

Lemma len_zero_iff (A : gset string) : Py.len A = 0%Z <-> A = ∅.
Proof.
  unfold Py.len. split.
  - intros H. apply leibniz_equiv, size_empty_iff. lia.
  - intros ->. reflexivity.
Qed.

Lemma jaccard_empty_l (B : gset string) : jaccard ∅ B = Ok 0%Qc.
Proof. unfold jaccard. rewrite bool_decide_eq_true_2; done. Qed.

Lemma jaccard_empty_r (A : gset string) : jaccard A ∅ = Ok 0%Qc.
Proof.
  unfold jaccard. rewrite (bool_decide_eq_true_2 (∅ = ∅)) by done.
  by rewrite orb_true_r.
Qed.

Lemma jaccard_bounds (A B : gset string) :
  exists q, jaccard A B = Ok q /\ (0 ≤ q)%Qc /\ (q ≤ 1)%Qc.
Proof.
  unfold jaccard.
  destruct (bool_decide (A = ∅) || bool_decide (B = ∅)) eqn:E.
  - exists 0%Qc. repeat split; done.
  - apply orb_false_iff in E as [EA _]. apply bool_decide_eq_false in EA.
    apply truediv_bounds.
    + unfold Py.len. split; [lia|]. apply Nat2Z.inj_le, subseteq_size.
      etrans; [apply intersection_subseteq_l|apply union_subseteq_l].
    + intros Hz%len_zero_iff. apply EA.
      apply leibniz_equiv, (proj1 (empty_union A B)). by rewrite Hz.
Qed.

Lemma jaccard_comm (A B : gset string) : jaccard A B = jaccard B A.
Proof.
  unfold jaccard.
  rewrite (orb_comm (bool_decide (A = ∅))).
  by rewrite (comm_L (∩) A B), (comm_L (∪) A B).
Qed.

Lemma jaccard_diag (A : gset string) : A <> ∅ -> jaccard A A = Ok 1%Qc.
Proof.
  intros HA. unfold jaccard.
  rewrite (bool_decide_eq_false_2 (A = ∅)) by done. simpl.
  rewrite (idemp_L (∩) A), (idemp_L (∪) A).
  apply truediv_diag. by intros Hz%len_zero_iff.
Qed.

Lemma list_to_set_nil_iff (l : list string) :
  (list_to_set l : gset string) = ∅ <-> l = [].
Proof.
  split; [|intros ->; done].
  destruct l as [|x l]; [done|]. intros H. exfalso.
  assert (Hx : x ∈ (list_to_set (x :: l) : gset string)) by set_solver.
  rewrite H in Hx. set_solver.
Qed.

(** ** Similarity engine *)

(** C1, as stated, fails: a component whose keyword list is empty scores
    0.6 against itself, because the keyword sub-score of two empty sets is
    0.0 and only the name weight remains. *)
Lemma combined_similarity_refl_counterexample :
  keywords c_pdf = [] /\
  combined_similarity c_pdf c_pdf = Ok w_name /\
  combined_similarity c_pdf c_pdf <> Ok 1%Qc.
Proof.
  assert (E : combined_similarity c_pdf c_pdf = Ok w_name).
  { unfold combined_similarity.
    pose proof (jaccard_bounds (name_words (name c_pdf)) (name_words (name c_pdf)))
      as (ns & Hns & _).
    rewrite name_similarity_jaccard, Hns, keyword_similarity_jaccard.
    change (keywords c_pdf) with (@nil string).
    change (list_to_set []) with (∅ : gset string).
    rewrite jaccard_empty_l. simpl.
    f_equal. apply weights_name_only. }
  split; [reflexivity|]. split; [exact E|].
  rewrite E. intros H. apply Ok_inj in H.
  apply (f_equal this) in H. vm_compute in H. discriminate.
Qed.

(** C1 (amended): [combined_similarity c c] is 1.0 for every component [c]
    whose keyword list is non-empty, and 0.6 (the name weight alone) when the
    keyword list is empty. *)
Theorem combined_similarity_refl (c : Component) :
  (keywords c <> [] -> combined_similarity c c = Ok 1%Qc) /\
  (keywords c = [] -> combined_similarity c c = Ok w_name).
Proof.
  unfold combined_similarity.
  pose proof (jaccard_bounds (name_words (name c)) (name_words (name c)))
    as (ns & Hns & _).
  rewrite name_similarity_jaccard, Hns, keyword_similarity_jaccard. simpl.
  rewrite bool_decide_eq_true_2 by reflexivity.
  split; intros Hk.
  - rewrite jaccard_diag by (by rewrite list_to_set_nil_iff).
    simpl. f_equal. apply weights_sum.
  - rewrite Hk. simpl. rewrite jaccard_empty_l. simpl.
    f_equal. apply weights_name_only.
Qed.

Lemma combined_similarity_refl_witness :
  keywords c_fix <> [] /\ combined_similarity c_fix c_fix = Ok 1%Qc.
Proof.
  split; [discriminate|].
  apply (proj1 (combined_similarity_refl c_fix)). discriminate.
Defined.

(** C7: [combined_similarity] always returns (no [ZeroDivisionError]), its
    value lies in [0,1], and each sub-score is 0.0 as soon as one of its two
    sets is empty. *)
Theorem combined_similarity_bounded (ours theirs : Component) :
  exists ns ks : Qc,
    name_similarity (name ours) (name theirs) = Ok ns /\
    keyword_similarity (keywords ours) (keywords theirs) = Ok ks /\
    (name_words (name ours) = ∅ \/ name_words (name theirs) = ∅ -> ns = 0%Qc) /\
    (keywords ours = [] \/ keywords theirs = [] -> ks = 0%Qc) /\
    exists sim : Qc,
      combined_similarity ours theirs = Ok sim /\
      sim = (w_name * (if bool_decide (name ours = name theirs) then 1 else ns)
             + w_keyword * ks)%Qc /\
      (0 ≤ sim)%Qc /\ (sim ≤ 1)%Qc.
Proof.
  pose proof (jaccard_bounds (name_words (name ours)) (name_words (name theirs)))
    as (ns & Hns & Hns0 & Hns1).
  pose proof (jaccard_bounds (list_to_set (keywords ours)) (list_to_set (keywords theirs)))
    as (ks & Hks & Hks0 & Hks1).
  exists ns, ks.
  rewrite name_similarity_jaccard, keyword_similarity_jaccard.
  split; [exact Hns|]. split; [exact Hks|]. split; [|split].
  - intros [H|H]; rewrite H in Hns;
      [rewrite jaccard_empty_l in Hns|rewrite jaccard_empty_r in Hns];
      by apply Ok_inj in Hns.
  - intros [H|H]; rewrite H in Hks; simpl in Hks;
      [rewrite jaccard_empty_l in Hks|rewrite jaccard_empty_r in Hks];
      by apply Ok_inj in Hks.
  - eexists. unfold combined_similarity.
    rewrite name_similarity_jaccard, keyword_similarity_jaccard, Hns, Hks. simpl.
    split; [reflexivity|]. split; [reflexivity|].
    apply weighted_bounds; try done; by case_bool_decide.
Qed.

(** C8: [combined_similarity] is symmetric. *)
Theorem combined_similarity_sym (a b : Component) :
  combined_similarity a b = combined_similarity b a.
Proof.
  unfold combined_similarity.
  rewrite !name_similarity_jaccard, !keyword_similarity_jaccard.
  rewrite (jaccard_comm (name_words (name a))).
  rewrite (jaccard_comm (list_to_set (keywords a))).
  destruct (jaccard (name_words (name b)) (name_words (name a))); [|done].
  destruct (jaccard (list_to_set (keywords b)) (list_to_set (keywords a))); [|done].
  simpl. do 2 case_bool_decide; congruence.
Qed.

(** ** Rounding to binary64 *)

Lemma round_half_even_floor (n d : Z) :
  (0 < d)%Z -> (n / d <= Binary64.round_half_even n d)%Z.
Proof.
  intros Hd. unfold Binary64.round_half_even.
  destruct (2 * (n mod d) ?= d)%Z; [destruct (Z.even _)|..]; lia.
Qed.

Lemma round_half_even_ge (n d k : Z) :
  (0 < d)%Z -> (k * d <= n)%Z -> (k <= Binary64.round_half_even n d)%Z.
Proof.
  intros Hd Hk. etrans; [|by apply round_half_even_floor].
  apply Z.div_le_lower_bound; lia.
Qed.

(** [round_half_even] returns a nearest integer, and the even one of the
    two when [n / d] lies halfway. *)
Lemma round_half_even_nearest (n d : Z) :
  (0 < d)%Z ->
  (2 * Z.abs (Binary64.round_half_even n d * d - n) <= d)%Z /\
  ((2 * (n mod d) = d)%Z -> Z.even (Binary64.round_half_even n d) = true).
Proof.
  intros Hd. unfold Binary64.round_half_even.
  pose proof (Z.mod_pos_bound n d Hd) as Hm.
  pose proof (Z.div_mod n d ltac:(lia)) as Hdm.
  destruct (Z.compare_spec (2 * (n mod d)) d) as [He|Hl|Hg].
  - destruct (Z.even (n / d)) eqn:Hev.
    + split; [nia|done].
    + split; [nia|]. intros _. rewrite Z.even_add, Hev. reflexivity.
  - split; [nia|lia].
  - split; [nia|lia].
Qed.

Lemma pow2_pos (e : Z) : (0 < 2 ^ Z.max e 0)%Z.
Proof. apply Z.pow_pos_nonneg; lia. Qed.

(** [floor_log2 a b] is the exponent of the power of two at or below
    [a / b]. *)
Lemma floor_log2_spec (a b : Z) :
  (0 < a)%Z -> (0 < b)%Z ->
  (b * 2 ^ Z.max (Binary64.floor_log2 a b) 0
     <= a * 2 ^ Z.max (- Binary64.floor_log2 a b) 0)%Z /\
  (a * 2 ^ Z.max (- (Binary64.floor_log2 a b + 1)) 0
     < b * 2 ^ Z.max (Binary64.floor_log2 a b + 1) 0)%Z.
Proof.
  intros Ha Hb. unfold Binary64.floor_log2, Binary64.reaches_pow2.
  pose proof (Z.log2_spec a Ha) as [Ha1 Ha2].
  pose proof (Z.log2_spec b Hb) as [Hb1 Hb2].
  pose proof (Z.log2_nonneg a) as Hla. pose proof (Z.log2_nonneg b) as Hlb.
  set (la := Z.log2 a) in *. set (lb := Z.log2 b) in *.
  replace (Z.succ la) with (la + 1)%Z in Ha2 by lia.
  replace (Z.succ lb) with (lb + 1)%Z in Hb2 by lia.
  rewrite Z.pow_add_r in Ha2, Hb2 by lia. change (2 ^ 1)%Z with 2%Z in *.
  assert (Hpa : (0 < 2 ^ la)%Z) by (apply Z.pow_pos_nonneg; lia).
  assert (Hpb : (0 < 2 ^ lb)%Z) by (apply Z.pow_pos_nonneg; lia).
  destruct (Z.leb_spec (b * 2 ^ Z.max (la - lb) 0) (a * 2 ^ Z.max (- (la - lb)) 0))
    as [Hle|Hgt].
  - split; [exact Hle|].
    destruct (Z.le_gt_cases 0 (la - lb + 1)) as [Hs|Hs].
    + rewrite (Z.max_r _ 0), (Z.max_l _ 0) by lia. change (2 ^ 0)%Z with 1%Z.
      assert (E : (2 ^ la * 2 = 2 ^ lb * 2 ^ (la - lb + 1))%Z).
      { rewrite <- Z.pow_add_r by lia. replace (lb + (la - lb + 1))%Z with (la + 1)%Z by lia.
        rewrite Z.pow_add_r by lia. reflexivity. }
      assert (Hp : (0 < 2 ^ (la - lb + 1))%Z) by (apply Z.pow_pos_nonneg; lia).
      nia.
    + rewrite (Z.max_l _ 0), (Z.max_r _ 0) by lia. change (2 ^ 0)%Z with 1%Z.
      assert (E : (2 ^ la * 2 * 2 ^ (- (la - lb + 1)) = 2 ^ lb)%Z).
      { replace (2 ^ la * 2)%Z with (2 ^ (la + 1))%Z by (rewrite Z.pow_add_r by lia; reflexivity).
        rewrite <- Z.pow_add_r by lia. f_equal. lia. }
      assert (Hp : (0 < 2 ^ (- (la - lb + 1)))%Z) by (apply Z.pow_pos_nonneg; lia).
      nia.
  - replace (la - lb - 1 + 1)%Z with (la - lb)%Z by lia.
    split; [|exact Hgt].
    destruct (Z.le_gt_cases 0 (la - lb - 1)) as [Hs|Hs].
    + rewrite (Z.max_l _ 0), (Z.max_r _ 0) by lia. change (2 ^ 0)%Z with 1%Z.
      assert (E : (2 ^ lb * 2 * 2 ^ (la - lb - 1) = 2 ^ la)%Z).
      { replace (2 ^ lb * 2)%Z with (2 ^ (lb + 1))%Z by (rewrite Z.pow_add_r by lia; reflexivity).
        rewrite <- Z.pow_add_r by lia. f_equal. lia. }
      assert (Hp : (0 < 2 ^ (la - lb - 1))%Z) by (apply Z.pow_pos_nonneg; lia).
      nia.
    + rewrite (Z.max_r _ 0), (Z.max_l _ 0) by lia. change (2 ^ 0)%Z with 1%Z.
      assert (E : (2 ^ lb * 2 = 2 ^ la * 2 ^ (- (la - lb - 1)))%Z).
      { rewrite <- Z.pow_add_r by lia. replace (la + - (la - lb - 1))%Z with (lb + 1)%Z by lia.
        rewrite Z.pow_add_r by lia. reflexivity. }
      assert (Hp : (0 < 2 ^ (- (la - lb - 1)))%Z) by (apply Z.pow_pos_nonneg; lia).
      nia.
Qed.

Lemma round_half_even_le (n d k : Z) :
  (0 < d)%Z -> (n <= k * d)%Z -> (Binary64.round_half_even n d <= k)%Z.
Proof.
  intros Hd Hk. unfold Binary64.round_half_even.
  assert (Hq : (n / d <= k)%Z) by (apply Z.div_le_upper_bound; lia).
  pose proof (Z.mod_pos_bound n d Hd) as Hm.
  pose proof (Z.div_mod n d) as Hdm.
  assert (Hs : (0 < n mod d -> n / d + 1 <= k)%Z).
  { intros Hr. cut (n / d < k)%Z; [lia|].
    apply Z.div_lt_upper_bound; [lia|].
    destruct (Z.eq_dec n (k * d)%Z) as [->|Hne]; [|lia].
    rewrite Z.mod_mul in Hr by lia. lia. }
  destruct (Z.compare_spec (2 * (n mod d)) d); [destruct (Z.even _)|..]; lia.
Qed.

Lemma round_half_even_nonneg (n d : Z) :
  (0 <= n)%Z -> (0 < d)%Z -> (0 <= Binary64.round_half_even n d)%Z.
Proof. intros Hn Hd. apply (round_half_even_ge n d 0); lia. Qed.

(** The exponent is below [m] when [a / b < 2 ^ m], and at least [m] when
    [2 ^ m <= a / b]; here for [m <= 0]. *)
Lemma floor_log2_lt (a b m : Z) :
  (0 < a)%Z -> (0 < b)%Z -> (m <= 0)%Z ->
  (a * 2 ^ (- m) < b)%Z -> (Binary64.floor_log2 a b < m)%Z.
Proof.
  intros Ha Hb Hm Hlt.
  destruct (floor_log2_spec a b Ha Hb) as [Hlo _].
  set (e := Binary64.floor_log2 a b) in *.
  destruct (Z.lt_ge_cases e m) as [|Hge]; [done|exfalso].
  destruct (Z.le_gt_cases 0 e) as [He|He].
  - rewrite (Z.max_l e 0), (Z.max_r (- e) 0) in Hlo by lia.
    change (2 ^ 0)%Z with 1%Z in Hlo.
    assert (1 <= 2 ^ e)%Z by (apply (Z.pow_le_mono_r 2 0 e); lia).
    assert (1 <= 2 ^ (- m))%Z by (apply (Z.pow_le_mono_r 2 0 (- m)); lia).
    nia.
  - rewrite (Z.max_r e 0), (Z.max_l (- e) 0) in Hlo by lia.
    change (2 ^ 0)%Z with 1%Z in Hlo.
    assert (2 ^ (- e) <= 2 ^ (- m))%Z by (apply Z.pow_le_mono_r; lia).
    nia.
Qed.

Lemma floor_log2_ge (a b m : Z) :
  (0 < a)%Z -> (0 < b)%Z -> (m <= 0)%Z ->
  (b <= a * 2 ^ (- m))%Z -> (m <= Binary64.floor_log2 a b)%Z.
Proof.
  intros Ha Hb Hm Hle.
  destruct (floor_log2_spec a b Ha Hb) as [_ Hhi].
  set (e := Binary64.floor_log2 a b) in *.
  destruct (Z.le_gt_cases m e) as [|Hlt]; [done|exfalso].
  rewrite (Z.max_l (- (e + 1)) 0), (Z.max_r (e + 1) 0) in Hhi by lia.
  change (2 ^ 0)%Z with 1%Z in Hhi.
  assert (2 ^ (- m) <= 2 ^ (- (e + 1)))%Z by (apply Z.pow_le_mono_r; lia).
  nia.
Qed.

(** On a grid at least as fine as [2 ^ - s], rounding does not cross the
    value [F / 2 ^ s]. *)
Lemma round_pos_le (a b F s : Z) :
  (0 < a)%Z -> (0 < b)%Z -> (0 <= s)%Z ->
  (Binary64.spacing a b <= - s)%Z ->
  (a * 2 ^ s <= F * b)%Z ->
  (Binary64.round_pos a b <= F # Z.to_pos (2 ^ s))%Q.
Proof.
  intros Ha Hb Hs Hu Hle. unfold Binary64.round_pos.
  set (u := Binary64.spacing a b) in *.
  rewrite (Z.max_l (- u) 0), (Z.max_r u 0) by lia. change (2 ^ 0)%Z with 1%Z.
  rewrite !Z.mul_1_r.
  assert (Hpu : (0 < 2 ^ (- u))%Z) by (apply Z.pow_pos_nonneg; lia).
  assert (Hps : (0 < 2 ^ s)%Z) by (apply Z.pow_pos_nonneg; lia).
  assert (Hpd : (0 < 2 ^ (- u - s))%Z) by (apply Z.pow_pos_nonneg; lia).
  assert (E : (2 ^ (- u) = 2 ^ (- u - s) * 2 ^ s)%Z).
  { rewrite <- Z.pow_add_r by lia. f_equal. lia. }
  pose proof (round_half_even_le (a * 2 ^ (- u)) b (F * 2 ^ (- u - s)) Hb) as Hn.
  unfold Qle. simpl. rewrite !Z2Pos.id by lia.
  etrans; [apply Z.mul_le_mono_nonneg_r; [lia|apply Hn; nia]|]. nia.
Qed.

Lemma round_pos_ge (a b F s : Z) :
  (0 < a)%Z -> (0 < b)%Z -> (0 <= s)%Z ->
  (Binary64.spacing a b <= - s)%Z ->
  (F * b <= a * 2 ^ s)%Z ->
  (F # Z.to_pos (2 ^ s) <= Binary64.round_pos a b)%Q.
Proof.
  intros Ha Hb Hs Hu Hle. unfold Binary64.round_pos.
  set (u := Binary64.spacing a b) in *.
  rewrite (Z.max_l (- u) 0), (Z.max_r u 0) by lia. change (2 ^ 0)%Z with 1%Z.
  rewrite !Z.mul_1_r.
  assert (Hpu : (0 < 2 ^ (- u))%Z) by (apply Z.pow_pos_nonneg; lia).
  assert (Hps : (0 < 2 ^ s)%Z) by (apply Z.pow_pos_nonneg; lia).
  assert (Hpd : (0 < 2 ^ (- u - s))%Z) by (apply Z.pow_pos_nonneg; lia).
  assert (E : (2 ^ (- u) = 2 ^ (- u - s) * 2 ^ s)%Z).
  { rewrite <- Z.pow_add_r by lia. f_equal. lia. }
  pose proof (round_half_even_ge (a * 2 ^ (- u)) b (F * 2 ^ (- u - s)) Hb) as Hn.
  unfold Qle. simpl. rewrite !Z2Pos.id by lia.
  etrans; [|apply Z.mul_le_mono_nonneg_r; [lia|apply Hn; nia]]. nia.
Qed.

(** A quotient of at least 1 rounds to at least 1. *)
Lemma round_pos_ge_1 (a b : Z) :
  (0 < a)%Z -> (0 < b)%Z -> (b <= a)%Z -> (1 <= Binary64.round_pos a b)%Q.
Proof.
  intros Ha Hb Hle.
  destruct (floor_log2_spec a b Ha Hb) as [Hlo _].
  assert (He : (0 <= Binary64.floor_log2 a b)%Z).
  { apply floor_log2_ge; try done. change (2 ^ (- 0))%Z with 1%Z. lia. }
  unfold Binary64.round_pos, Binary64.spacing.
  set (e := Binary64.floor_log2 a b) in *.
  rewrite (Z.max_l e 0), (Z.max_r (- e) 0) in Hlo by lia.
  change (2 ^ 0)%Z with 1%Z in Hlo. rewrite Z.mul_1_r in Hlo.
  rewrite (Z.max_l (e - 52) (-1074)) by lia.
  assert (Hpe : (1 <= 2 ^ e)%Z) by (apply (Z.pow_le_mono_r 2 0 e); lia).
  destruct (Z.le_gt_cases (e - 52) 0) as [Hu|Hu].
  - rewrite (Z.max_l (- (e - 52)) 0), (Z.max_r (e - 52) 0) by lia.
    change (2 ^ 0)%Z with 1%Z. rewrite !Z.mul_1_r.
    assert (Hp : (0 < 2 ^ (- (e - 52)))%Z) by (apply Z.pow_pos_nonneg; lia).
    assert (E : (2 ^ (- (e - 52)) * 2 ^ e = 2 ^ 52)%Z).
    { rewrite <- Z.pow_add_r by lia. f_equal. lia. }
    pose proof (round_half_even_ge (a * 2 ^ (- (e - 52))) b (2 ^ 52) Hb) as Hn.
    unfold Qle. simpl. rewrite !Z2Pos.id by lia.
    assert (Hn' : (2 ^ 52 <= Binary64.round_half_even (a * 2 ^ (- (e - 52))) b)%Z).
    { apply Hn. rewrite <- E. nia. }
    assert (2 ^ (- (e - 52)) <= 2 ^ 52)%Z by (apply Z.pow_le_mono_r; lia).
    lia.
  - rewrite (Z.max_r (- (e - 52)) 0), (Z.max_l (e - 52) 0) by lia.
    change (2 ^ 0)%Z with 1%Z. rewrite !Z.mul_1_r.
    assert (Hp : (0 < 2 ^ (e - 52))%Z) by (apply Z.pow_pos_nonneg; lia).
    assert (E : (2 ^ (e - 52) * 2 ^ 52 = 2 ^ e)%Z).
    { rewrite <- Z.pow_add_r by lia. f_equal. lia. }
    pose proof (round_half_even_ge a (b * 2 ^ (e - 52)) (2 ^ 52)) as Hn.
    unfold Qle. simpl.
    assert (Hn' : (2 ^ 52 <= Binary64.round_half_even a (b * 2 ^ (e - 52)))%Z).
    { apply Hn; [nia|]. rewrite <- E in Hlo. nia. }
    nia.
Qed.

Lemma floor_log2_lt_pos (a b m : Z) :
  (0 < a)%Z -> (0 < b)%Z -> (0 <= m)%Z ->
  (a < b * 2 ^ m)%Z -> (Binary64.floor_log2 a b < m)%Z.
Proof.
  intros Ha Hb Hm Hlt.
  destruct (floor_log2_spec a b Ha Hb) as [Hlo _].
  set (e := Binary64.floor_log2 a b) in *.
  destruct (Z.lt_ge_cases e m) as [|Hge]; [done|exfalso].
  rewrite (Z.max_l e 0), (Z.max_r (- e) 0) in Hlo by lia.
  change (2 ^ 0)%Z with 1%Z in Hlo.
  assert (2 ^ m <= 2 ^ e)%Z by (apply Z.pow_le_mono_r; lia).
  nia.
Qed.

Lemma spacing_le (a b m : Z) :
  (Binary64.floor_log2 a b < m)%Z -> (-1021 <= m)%Z ->
  (Binary64.spacing a b <= m - 53)%Z.
Proof. unfold Binary64.spacing. lia. Qed.

(** A positive float value, by numerator and denominator. *)
Lemma round_positive (q : Qc) :
  (0 < q)%Qc ->
  exists a b : positive,
    this q = (Zpos a # b)%Q /\
    Binary64.round q = Q2Qc (Binary64.round_pos (Zpos a) (Zpos b)).
Proof.
  destruct q as [[n d] Hc]. unfold Qclt, Qlt, Binary64.round. simpl.
  destruct n as [|a|a]; try lia. intros _. by exists a, d.
Qed.

Lemma round_pos_nonneg (a b : positive) :
  (0 <= Binary64.round_pos (Zpos a) (Zpos b))%Q.
Proof.
  unfold Binary64.round_pos, Qle. cbn [Qnum Qden]. rewrite Z.mul_1_r, Z.mul_0_l.
  apply Z.mul_nonneg_nonneg; [|apply Z.pow_nonneg; lia].
  apply round_half_even_nonneg.
  - apply Z.mul_nonneg_nonneg; [lia|apply Z.pow_nonneg; lia].
  - apply Z.mul_pos_pos; [lia|apply Z.pow_pos_nonneg; lia].
Qed.

Lemma Q2Qc_le (x : Q) (y : Qc) : (x <= y)%Q -> (Q2Qc x ≤ y)%Qc.
Proof. unfold Qcle. cbn [this Q2Qc]. by rewrite Qred_correct. Qed.

Lemma le_Q2Qc (x : Q) (y : Qc) : (y <= x)%Q -> (y ≤ Q2Qc x)%Qc.
Proof. unfold Qcle. cbn [this Q2Qc]. by rewrite Qred_correct. Qed.

Lemma round_nonneg (q : Qc) : (0 ≤ q)%Qc -> (0 ≤ Binary64.round q)%Qc.
Proof.
  intros H0. destruct (Qcle_lt_or_eq _ _ H0) as [Hpos|<-]; [|done].
  destruct (round_positive q Hpos) as (a & b & _ & ->).
  apply le_Q2Qc, round_pos_nonneg.
Qed.

Lemma round_le_1 (q : Qc) : (0 ≤ q)%Qc -> (q ≤ 1)%Qc -> (Binary64.round q ≤ 1)%Qc.
Proof.
  intros H0 H1. destruct (Qcle_lt_or_eq _ _ H0) as [Hpos|<-]; [|done].
  destruct (round_positive q Hpos) as (a & b & Eq & ->).
  unfold Qcle in H1. rewrite Eq in H1. change (this 1%Qc) with (1 # 1)%Q in H1.
  unfold Qle in H1. cbn [Qnum Qden] in H1.
  apply Q2Qc_le. change (this 1%Qc) with (1 # Z.to_pos (2 ^ 0))%Q.
  apply round_pos_le; rewrite ?Z.pow_0_r; try lia.
  change (- 0)%Z with (1 - 53 + 52)%Z.
  etrans; [apply (spacing_le _ _ 1); [|lia]|lia].
  apply floor_log2_lt_pos; rewrite ?Z.pow_1_r; lia.
Qed.

(** The weights as fractions of [2 ^ 53]. *)
Lemma w_name_value : this Binary64.w_name = (5404319552844595 # Z.to_pos (2 ^ 53))%Q.
Proof. vm_compute. reflexivity. Qed.

Lemma w_keyword_value : this Binary64.w_keyword = (3602879701896397 # Z.to_pos (2 ^ 53))%Q.
Proof. vm_compute. reflexivity. Qed.

Lemma round_le_fraction (q : Qc) (F : Z) :
  (F < 2 ^ 53)%Z ->
  (0 ≤ q)%Qc -> (this q <= F # Z.to_pos (2 ^ 53))%Q ->
  (this (Binary64.round q) <= F # Z.to_pos (2 ^ 53))%Q.
Proof.
  intros HF H0 H1. destruct (Qcle_lt_or_eq _ _ H0) as [Hpos|<-]; [|exact H1].
  destruct (round_positive q Hpos) as (a & b & Eq & ->).
  rewrite Eq in H1. cbn [this Q2Qc]. rewrite Qred_correct.
  assert (Hp : (0 < 2 ^ 53)%Z) by (apply Z.pow_pos_nonneg; lia).
  unfold Qle in H1. cbn [Qnum Qden] in H1. rewrite Z2Pos.id in H1 by exact Hp.
  apply round_pos_le; try lia.
  apply (Z.le_trans _ (0 - 53)); [|lia]. apply spacing_le; [|lia].
  apply floor_log2_lt_pos; rewrite ?Z.pow_0_r; nia.
Qed.

Lemma round_le_w_name (q : Qc) :
  (0 ≤ q)%Qc -> (q ≤ Binary64.w_name)%Qc -> (Binary64.round q ≤ Binary64.w_name)%Qc.
Proof.
  unfold Qcle at 2 3. rewrite w_name_value. intros H0 H1.
  apply round_le_fraction; try done.
Qed.

Lemma round_le_w_keyword (q : Qc) :
  (0 ≤ q)%Qc -> (q ≤ Binary64.w_keyword)%Qc -> (Binary64.round q ≤ Binary64.w_keyword)%Qc.
Proof.
  unfold Qcle at 2 3. rewrite w_keyword_value. intros H0 H1.
  apply round_le_fraction; try done.
Qed.

Lemma round_ge_w_name (q : Qc) :
  (Binary64.w_name ≤ q)%Qc -> (Binary64.w_name ≤ Binary64.round q)%Qc.
Proof.
  intros H1.
  assert (Hpos : (0 < q)%Qc).
  { eapply Qclt_le_trans; [|exact H1]. unfold Qclt. vm_compute. reflexivity. }
  destruct (round_positive q Hpos) as (a & b & Eq & ->).
  unfold Qcle in *. rewrite w_name_value in *. rewrite Eq in H1.
  cbn [this Q2Qc]. rewrite Qred_correct.
  assert (Hp : (0 < 2 ^ 53)%Z) by (apply Z.pow_pos_nonneg; lia).
  unfold Qle in H1. cbn [Qnum Qden] in H1. rewrite Z2Pos.id in H1 by exact Hp.
  destruct (Z.lt_ge_cases (Zpos a) (Zpos b)) as [Hlt|Hge].
  - apply round_pos_ge; try lia.
    apply (Z.le_trans _ (0 - 53)); [|lia]. apply spacing_le; [|lia].
    apply floor_log2_lt_pos; rewrite ?Z.pow_0_r; lia.
  - eapply Qle_trans; [|apply round_pos_ge_1; lia].
    unfold Qle. vm_compute. discriminate.
Qed.

(** ** The scores in binary64 *)

Lemma out_of_range_gt_1 : (1 < Binary64.out_of_range)%Qc.
Proof. unfold Qclt. vm_compute. reflexivity. Qed.

Lemma overflows_unit (q : Qc) :
  (0 ≤ q)%Qc -> (q ≤ 1)%Qc -> Binary64.overflows q = false.
Proof.
  intros H0 H1. unfold Binary64.overflows. apply orb_false_iff.
  pose proof out_of_range_gt_1 as Hr. revert Hr.
  generalize Binary64.out_of_range. intros r Hr.
  split; apply bool_decide_eq_false; intros H;
    unfold Qcle, Qclt in *; simpl in *; rewrite ?Qred_correct in H;
    change (Qred 0) with 0%Q in *; change (Qred 1) with 1%Q in *; lra.
Qed.

Lemma quotient_unit (i u : Z) :
  (0 <= i <= u)%Z -> u <> 0%Z ->
  (0 ≤ Q2Qc (inject_Z i / inject_Z u))%Qc /\ (Q2Qc (inject_Z i / inject_Z u) ≤ 1)%Qc.
Proof.
  intros Hle Hu.
  assert (Hpos : (0 < inject_Z u)%Q) by (unfold Qlt; simpl; lia).
  unfold Qcle. simpl. rewrite !Qred_correct. split.
  - apply Qle_shift_div_l; [exact Hpos|]. unfold Qle; simpl; lia.
  - apply Qle_shift_div_r; [exact Hpos|]. unfold Qle; simpl; lia.
Qed.

Lemma binary64_truediv_unit (i u : Z) :
  (0 <= i <= u)%Z -> u <> 0%Z ->
  Binary64.truediv i u = Ok (Binary64.round (Q2Qc (inject_Z i / inject_Z u))) /\
  (0 ≤ Binary64.round (Q2Qc (inject_Z i / inject_Z u)))%Qc /\
  (Binary64.round (Q2Qc (inject_Z i / inject_Z u)) ≤ 1)%Qc.
Proof.
  intros Hle Hu. unfold Binary64.truediv.
  rewrite bool_decide_eq_false_2 by done. cbv zeta.
  destruct (quotient_unit i u Hle Hu) as [H0 H1].
  rewrite overflows_unit by done.
  split; [done|]. split; [by apply round_nonneg|by apply round_le_1].
Qed.

Lemma binary64_truediv_diag (n : Z) : n <> 0%Z -> Binary64.truediv n n = Ok 1%Qc.
Proof.
  intros Hn. unfold Binary64.truediv. rewrite bool_decide_eq_false_2 by done.
  assert (E : Q2Qc (inject_Z n / inject_Z n) = 1%Qc).
  { apply Qc_is_canon. simpl. rewrite Qred_correct.
    apply Qmult_inv_r. unfold Qeq; simpl; lia. }
  cbv zeta. rewrite E, overflows_unit by done.
  f_equal. apply Qc_is_canon. vm_compute. reflexivity.
Qed.

Lemma binary64_jaccard_bounds (A B : gset string) :
  exists q, jaccard64 A B = Ok q /\ (0 ≤ q)%Qc /\ (q ≤ 1)%Qc.
Proof.
  unfold jaccard64.
  destruct (bool_decide (A = ∅) || bool_decide (B = ∅)) eqn:E.
  - exists 0%Qc. repeat split; done.
  - apply orb_false_iff in E as [EA _]. apply bool_decide_eq_false in EA.
    eexists. apply binary64_truediv_unit.
    + unfold Py.len. split; [lia|]. apply Nat2Z.inj_le, subseteq_size.
      etrans; [apply intersection_subseteq_l|apply union_subseteq_l].
    + intros Hz%len_zero_iff. apply EA.
      apply leibniz_equiv, (proj1 (empty_union A B)). by rewrite Hz.
Qed.

Lemma binary64_jaccard_comm (A B : gset string) : jaccard64 A B = jaccard64 B A.
Proof.
  unfold jaccard64.
  rewrite (orb_comm (bool_decide (A = ∅))).
  by rewrite (comm_L (∩) A B), (comm_L (∪) A B).
Qed.

Lemma binary64_jaccard_diag (A : gset string) : A <> ∅ -> jaccard64 A A = Ok 1%Qc.
Proof.
  intros HA. unfold jaccard64.
  rewrite (bool_decide_eq_false_2 (A = ∅)) by done. simpl.
  rewrite (idemp_L (∩) A), (idemp_L (∪) A).
  apply binary64_truediv_diag. by intros Hz%len_zero_iff.
Qed.

Lemma binary64_jaccard_empty_l (B : gset string) : jaccard64 ∅ B = Ok 0%Qc.
Proof. unfold jaccard64. rewrite bool_decide_eq_true_2; done. Qed.

Lemma binary64_weights_sum : (Binary64.w_name + Binary64.w_keyword = 1)%Qc.
Proof. apply Qc_is_canon. vm_compute. reflexivity. Qed.

Lemma w_name_nonneg : (0 ≤ Binary64.w_name)%Qc.
Proof. unfold Qcle. vm_compute. discriminate. Qed.

Lemma w_keyword_nonneg : (0 ≤ Binary64.w_keyword)%Qc.
Proof. unfold Qcle. vm_compute. discriminate. Qed.

Lemma round_w_name : Binary64.round Binary64.w_name = Binary64.w_name.
Proof.
  apply Qcle_antisym.
  - apply round_le_w_name; [apply w_name_nonneg|apply Qcle_refl].
  - apply round_ge_w_name, Qcle_refl.
Qed.

Lemma round_zero : Binary64.round 0 = 0%Qc.
Proof. reflexivity. Qed.

Lemma round_one : Binary64.round 1 = 1%Qc.
Proof. apply Qc_is_canon. vm_compute. reflexivity. Qed.

Lemma round_w_keyword : Binary64.round Binary64.w_keyword = Binary64.w_keyword.
Proof. apply Qc_is_canon. vm_compute. reflexivity. Qed.

Lemma Qc_mul_unit (w x : Qc) :
  (0 ≤ w)%Qc -> (0 ≤ x)%Qc -> (x ≤ 1)%Qc -> (0 ≤ w * x)%Qc /\ (w * x ≤ w)%Qc.
Proof.
  unfold Qcle. cbn [this Qcmult Q2Qc]. rewrite !Qred_correct.
  change (this 0%Qc) with 0%Q. change (this 1%Qc) with 1%Q.
  intros Hw H0 H1. split; nra.
Qed.

(** The two products and their sum stay within their exact bounds. *)
Lemma binary64_weighted_bounds (ns ks : Qc) :
  (0 ≤ ns)%Qc -> (ns ≤ 1)%Qc -> (0 ≤ ks)%Qc -> (ks ≤ 1)%Qc ->
  (0 ≤ Binary64.mul Binary64.w_name ns)%Qc /\
  (Binary64.mul Binary64.w_name ns ≤ Binary64.w_name)%Qc /\
  (0 ≤ Binary64.mul Binary64.w_keyword ks)%Qc /\
  (Binary64.mul Binary64.w_keyword ks ≤ Binary64.w_keyword)%Qc /\
  (0 ≤ Binary64.add (Binary64.mul Binary64.w_name ns)
         (Binary64.mul Binary64.w_keyword ks))%Qc /\
  (Binary64.add (Binary64.mul Binary64.w_name ns)
     (Binary64.mul Binary64.w_keyword ks) ≤ 1)%Qc.
Proof.
  intros Hn0 Hn1 Hk0 Hk1. unfold Binary64.mul, Binary64.add.
  destruct (Qc_mul_unit _ _ w_name_nonneg Hn0 Hn1) as [Ha0 Ha1].
  destruct (Qc_mul_unit _ _ w_keyword_nonneg Hk0 Hk1) as [Hb0 Hb1].
  assert (Hx0 := round_nonneg _ Ha0). assert (Hx1 := round_le_w_name _ Ha0 Ha1).
  assert (Hy0 := round_nonneg _ Hb0). assert (Hy1 := round_le_w_keyword _ Hb0 Hb1).
  split; [exact Hx0|]. split; [exact Hx1|]. split; [exact Hy0|]. split; [exact Hy1|].
  set (x := Binary64.round (Binary64.w_name * ns)) in *.
  set (y := Binary64.round (Binary64.w_keyword * ks)) in *.
  assert (Hs0 : (0 ≤ x + y)%Qc).
  { replace 0%Qc with (0 + 0)%Qc by ring. by apply Qcplus_le_compat. }
  assert (Hs1 : (x + y ≤ 1)%Qc).
  { rewrite <- binary64_weights_sum. by apply Qcplus_le_compat. }
  split; [by apply round_nonneg|by apply round_le_1].
Qed.

Lemma binary64_combined_similarity_unfold (a b : Component) :
  Binary64.combined_similarity a b
  = do ns <- jaccard64 (name_words (name a)) (name_words (name b));
    do ks <- jaccard64 (list_to_set (keywords a)) (list_to_set (keywords b));
    Ok (Binary64.add
          (Binary64.mul Binary64.w_name
             (if bool_decide (name a = name b) then 1%Qc else ns))
          (Binary64.mul Binary64.w_keyword ks)).
Proof. reflexivity. Qed.

Lemma binary64_combined_similarity_total (a b : Component) :
  Binary64.combined_similarity a b = Ok (sim_of a b) /\
  (0 ≤ sim_of a b)%Qc /\ (sim_of a b ≤ 1)%Qc.
Proof.
  unfold sim_of. rewrite binary64_combined_similarity_unfold.
  destruct (binary64_jaccard_bounds (name_words (name a)) (name_words (name b)))
    as (ns & -> & Hn0 & Hn1).
  destruct (binary64_jaccard_bounds (list_to_set (keywords a)) (list_to_set (keywords b)))
    as (ks & -> & Hk0 & Hk1).
  cbn [rbind score]. split; [reflexivity|].
  set (ns' := if bool_decide (name a = name b) then 1%Qc else ns).
  assert (Hn' : (0 ≤ ns')%Qc /\ (ns' ≤ 1)%Qc).
  { unfold ns'. case_bool_decide; [split; discriminate|by split]. }
  destruct Hn' as [Hn0' Hn1'].
  destruct (binary64_weighted_bounds ns' ks Hn0' Hn1' Hk0 Hk1) as (_ & _ & _ & _ & H).
  exact H.
Qed.

Lemma combined_similarity_ok (a b : Component) :
  Binary64.combined_similarity a b = Ok (sim_of a b).
Proof. apply binary64_combined_similarity_total. Qed.

(** Two components of the same name score at least the float 0.6. *)
Lemma sim_of_same_name (a b : Component) :
  name a = name b -> (Binary64.w_name ≤ sim_of a b)%Qc.
Proof.
  intros Hn. unfold sim_of. rewrite binary64_combined_similarity_unfold.
  destruct (binary64_jaccard_bounds (name_words (name a)) (name_words (name b)))
    as (ns & -> & _).
  destruct (binary64_jaccard_bounds (list_to_set (keywords a)) (list_to_set (keywords b)))
    as (ks & -> & Hk0 & Hk1).
  cbn [rbind score]. rewrite bool_decide_eq_true_2 by done.
  unfold Binary64.add, Binary64.mul at 1.
  rewrite Qcmult_1_r, round_w_name.
  apply round_ge_w_name.
  assert (Hy : (0 ≤ Binary64.mul Binary64.w_keyword ks)%Qc).
  { apply round_nonneg.
    apply (proj1 (Qc_mul_unit _ _ w_keyword_nonneg Hk0 Hk1)). }
  revert Hy. generalize (Binary64.mul Binary64.w_keyword ks).
  generalize Binary64.w_name. intros w y Hy.
  unfold Qcle in *. cbn [this Qcplus Q2Qc]. rewrite Qred_correct.
  change (this 0%Qc) with 0%Q in Hy. lra.
Qed.

Lemma size_ratio_cases (a b : Component) :
  Binary64.truediv (line_count b) (Z.max (line_count a) 1)
  = if Binary64.overflows (exact_ratio a b) then Raise OverflowError
    else Ok (ratio_of a b).
Proof.
  unfold Binary64.truediv. rewrite bool_decide_eq_false_2 by lia. reflexivity.
Qed.

Lemma size_ratio_returns_or_overflows (a b : Component) :
  Binary64.truediv (line_count b) (Z.max (line_count a) 1) = Ok (ratio_of a b) /\
    Binary64.overflows (exact_ratio a b) = false \/
  Binary64.truediv (line_count b) (Z.max (line_count a) 1) = Raise OverflowError /\
    Binary64.overflows (exact_ratio a b) = true.
Proof.
  rewrite size_ratio_cases. destruct (Binary64.overflows _); [right|left]; done.
Qed.

(** [Binary64] computes the weighted sum as the primitive floats do, for
    every pair of quotients of integers up to 10. *)
Lemma binary64_agrees_with_primitive_floats : agree_up_to 10 = true.
Proof. vm_compute. reflexivity. Qed.

(** ** Stable descending sort *)

Lemma insert_desc_perm (m : Match) (l : list Match) : insert_desc m l ≡ₚ m :: l.
Proof.
  induction l as [|x l IH]; simpl; [done|].
  unfold similarity_desc at 1. case_bool_decide; [|done].
  rewrite IH. apply Permutation_swap.
Qed.

Lemma sort_desc_perm (l : list Match) : sort_desc l ≡ₚ l.
Proof.
  unfold sort_desc. induction l as [|m l IH]; simpl; [done|].
  by rewrite insert_desc_perm, IH.
Qed.

Lemma insert_desc_sorted (m : Match) (l : list Match) :
  StronglySorted by_similarity_desc l ->
  StronglySorted by_similarity_desc (insert_desc m l).
Proof.
  induction 1 as [|x l Hs IH Hx]; simpl.
  - repeat constructor.
  - unfold similarity_desc at 1. case_bool_decide as Hlt.
    + constructor; [exact IH|].
      apply List.Forall_forall. intros y Hy.
      rewrite <- list_elem_of_In, insert_desc_perm in Hy.
      apply elem_of_cons in Hy as [->|Hy].
      * unfold by_similarity_desc. by apply Qclt_le_weak.
      * rewrite List.Forall_forall in Hx. apply Hx. by apply list_elem_of_In.
    + apply Qcnot_lt_le in Hlt.
      constructor; [by constructor|].
      constructor; [exact Hlt|].
      eapply Forall_impl; [exact Hx|].
      intros y Hy. unfold by_similarity_desc in *. by etrans.
Qed.

Lemma sort_desc_sorted (l : list Match) : StronglySorted by_similarity_desc (sort_desc l).
Proof.
  unfold sort_desc. induction l as [|m l IH]; simpl; [constructor|].
  by apply insert_desc_sorted.
Qed.

Lemma insert_desc_stable (q : Qc) (m : Match) (l : list Match) :
  filter (λ x, similarity x = q) (insert_desc m l)
  = filter (λ x, similarity x = q) (m :: l).
Proof.
  induction l as [|x l IH]; simpl; [done|].
  unfold similarity_desc at 1. case_bool_decide as Hlt; [|done].
  rewrite filter_cons, IH, !filter_cons.
  destruct (decide (similarity x = q)) as [Hx|Hx];
    destruct (decide (similarity m = q)) as [Hm|Hm]; try done.
  exfalso. rewrite Hx, Hm in Hlt. by apply Qclt_not_eq in Hlt.
Qed.

Lemma sort_desc_stable (q : Qc) (l : list Match) :
  filter (λ x, similarity x = q) (sort_desc l) = filter (λ x, similarity x = q) l.
Proof.
  unfold sort_desc. induction l as [|m l IH]; simpl; [done|].
  by rewrite insert_desc_stable, !filter_cons, IH.
Qed.

(** ** Overlap finder *)

Lemma decide_Forall_cons {A : Type} (P : A -> Prop) `{!forall x, Decision (P x)}
    {B : Type} (x : A) (l : list A) (u v : B) :
  P x ->
  (if decide (Forall P (x :: l)) then u else v) = (if decide (Forall P l) then u else v).
Proof.
  intros Hx. destruct (decide (Forall P l)) as [Hl|Hl].
  - rewrite decide_True; [done|]. by constructor.
  - rewrite decide_False; [done|]. by intros [_ ?]%Forall_cons.
Qed.

Lemma find_overlaps_inner_spec o ext t acc :
  find_overlaps_inner o ext t acc
  = if decide (Forall ratio_in_range (filter (qualifies t) (pair o <$> ext)))
    then Ok (acc ++ (match_of <$> filter (qualifies t) (pair o <$> ext)))
    else Raise OverflowError.
Proof.
  revert acc. induction ext as [|e ext IH]; intros acc.
  - cbn [find_overlaps_inner]. rewrite fmap_nil, filter_nil.
    rewrite decide_True by constructor. by rewrite app_nil_r.
  - cbn [find_overlaps_inner]. rewrite fmap_cons, filter_cons.
    rewrite combined_similarity_ok. cbn [rbind].
    destruct (decide (qualifies t (o, e))) as [[Hk Ht]|Hq]; simpl in *.
    + rewrite bool_decide_eq_false_2 by (by intros ?).
      rewrite bool_decide_eq_true_2 by done.
      rewrite size_ratio_cases.
      destruct (Binary64.overflows (exact_ratio o e)) eqn:Hov; cbn [rbind].
      * rewrite decide_False; [done|].
        intros [Hr _]%Forall_cons. unfold ratio_in_range in Hr. simpl in Hr. congruence.
      * rewrite IH, decide_Forall_cons by exact Hov.
        destruct (decide _); [|done].
        rewrite ?fmap_cons, <- app_assoc. reflexivity.
    + case_bool_decide as Hk; [by rewrite IH|].
      rewrite bool_decide_eq_false_2; [by rewrite IH|].
      intros Ht. by apply Hq.
Qed.

Lemma find_overlaps_outer_spec os ext t acc :
  find_overlaps_outer os ext t acc
  = if decide (Forall ratio_in_range (discovery_order os ext t))
    then Ok (acc ++ (match_of <$> discovery_order os ext t))
    else Raise OverflowError.
Proof.
  unfold discovery_order.
  revert acc. induction os as [|o os IH]; intros acc.
  - cbn [find_overlaps_outer list_prod]. rewrite filter_nil.
    rewrite decide_True by constructor. by rewrite app_nil_r.
  - cbn [find_overlaps_outer list_prod].
    change (List.map (λ y, (o, y)) ext) with (pair o <$> ext).
    rewrite find_overlaps_inner_spec, filter_app.
    destruct (decide (Forall ratio_in_range (filter _ (pair o <$> ext)))) as [Hf|Hf];
      cbn [rbind].
    + rewrite IH.
      destruct (decide (Forall ratio_in_range (filter _ (list_prod os ext)))) as [Hg|Hg].
      * rewrite decide_True by (by apply Forall_app).
        by rewrite fmap_app, app_assoc.
      * rewrite decide_False; [done|]. by intros [_ ?]%Forall_app.
    + rewrite decide_False; [done|]. by intros [? _]%Forall_app.
Qed.

Lemma find_overlaps_eq (os exts : list Component) (t : Qc) :
  find_overlaps os exts t
  = if decide (Forall ratio_in_range (discovery_order os exts t))
    then Ok (sort_desc (match_of <$> discovery_order os exts t))
    else Raise OverflowError.
Proof.
  unfold find_overlaps. rewrite find_overlaps_outer_spec.
  by destruct (decide _).
Qed.

Lemma elem_of_discovery_order (os exts : list Component) (t : Qc)
    (p : Component * Component) :
  p ∈ discovery_order os exts t <-> p.1 ∈ os /\ p.2 ∈ exts /\ qualifies t p.
Proof.
  destruct p as [o e]. unfold discovery_order.
  rewrite list_elem_of_filter, list_elem_of_In, in_prod_iff, <- !list_elem_of_In.
  simpl. tauto.
Qed.

Lemma elem_of_find_overlaps (os exts : list Component) (t : Qc) (m : Match) :
  m ∈ sort_desc (match_of <$> discovery_order os exts t) <->
  exists p, m = match_of p /\ p.1 ∈ os /\ p.2 ∈ exts /\ qualifies t p.
Proof.
  rewrite sort_desc_perm, list_elem_of_fmap.
  split; intros (p & Hm & Hp); exists p; (split; [done|]);
    by apply elem_of_discovery_order.
Qed.

(** What [find_overlaps] does, by cases: it raises [OverflowError] when the
    size ratio of some qualifying pair is out of range, and returns the
    sorted matches of the qualifying pairs otherwise. *)
Lemma find_overlaps_cases (os exts : list Component) (t : Qc) :
  ((exists o e, o ∈ os /\ e ∈ exts /\ kind o = kind e /\ (t ≤ sim_of o e)%Qc /\
      Binary64.overflows (exact_ratio o e) = true) /\
   find_overlaps os exts t = Raise OverflowError) \/
  ((forall o e, o ∈ os -> e ∈ exts -> kind o = kind e -> (t ≤ sim_of o e)%Qc ->
      Binary64.overflows (exact_ratio o e) = false) /\
   find_overlaps os exts t = Ok (sort_desc (match_of <$> discovery_order os exts t))).
Proof.
  rewrite find_overlaps_eq.
  destruct (decide (Forall ratio_in_range (discovery_order os exts t))) as [Hf|Hf].
  - right. split; [|done]. intros o e Ho He Hk Ht.
    rewrite Forall_forall in Hf. apply (Hf (o, e)).
    apply elem_of_discovery_order. done.
  - left. split; [|done].
    apply not_Forall_Exists in Hf; [|intros p; unfold ratio_in_range; apply _].
    apply Exists_exists in Hf as ([o e] & Hp & Hr).
    apply elem_of_discovery_order in Hp as (Ho & He & Hk & Ht).
    exists o, e. repeat split; try done.
    unfold ratio_in_range in Hr. simpl in Hr. by destruct (Binary64.overflows _).
Qed.

Lemma pair_of_match_of (l : list (Component * Component)) :
  pair_of <$> (match_of <$> l) = l.
Proof.
  induction l as [|[o e] l IH]; [done|].
  rewrite !fmap_cons, IH. reflexivity.
Qed.

Lemma filter_similarity_match_of (q : Qc) (l : list (Component * Component)) :
  filter (λ m, similarity m = q) (match_of <$> l)
  = match_of <$> filter (λ p, sim_of p.1 p.2 = q) l.
Proof.
  induction l as [|p l IH]; [done|].
  rewrite fmap_cons, !filter_cons. simpl.
  destruct (decide (sim_of p.1 p.2 = q)); rewrite IH; reflexivity.
Qed.

(** C5, as stated, fails for a catalog read from a cache file that holds a
    huge line count: the pair qualifies (same kind, similarity 1.0), but the
    division for its size ratio raises [OverflowError], so nothing is
    returned. *)
Lemma find_overlaps_counterexample :
  kind c_fix = kind c_huge /\
  Binary64.combined_similarity c_fix c_huge = Ok 1%Qc /\
  (float_0_2 ≤ 1)%Qc /\
  Binary64.truediv (line_count c_huge) (Z.max (line_count c_fix) 1) = Raise OverflowError /\
  find_overlaps [c_fix] [c_huge] float_0_2 = Raise OverflowError /\
  ~ (forall (our_components external_components : list Component) (threshold : Qc),
       exists matches,
         find_overlaps our_components external_components threshold = Ok matches).
Proof.
  assert (E : find_overlaps [c_fix] [c_huge] float_0_2 = Raise OverflowError)
    by (vm_compute; reflexivity).
  split; [reflexivity|]. split; [|split; [|split; [|split]]].
  - rewrite combined_similarity_ok. f_equal. apply Qc_is_canon. vm_compute. reflexivity.
  - unfold Qcle. vm_compute. discriminate.
  - vm_compute. reflexivity.
  - exact E.
  - intros H. destruct (H [c_fix] [c_huge] float_0_2) as (matches & Hm).
    rewrite E in Hm. discriminate.
Qed.

(** C5 (amended): when the size ratio of every pair of equal kind whose
    combined similarity reaches the threshold is within the range of a
    float, [find_overlaps] returns exactly one match per such pair (pairs of
    different kinds never appear), each match carrying the pair's
    similarity and size ratio; the list is sorted by similarity descending,
    and matches of equal similarity stand in the discovery order of the
    pairwise loop.  When the size ratio of some such pair is out of range,
    [find_overlaps] raises [OverflowError]; the division raises nothing
    else.  The similarities are those computed in binary64: [sim_of] is the
    value [Binary64.combined_similarity] returns, and [discovery_order]
    lists the pairs of [list_prod] that have equal kinds and reach the
    threshold. *)
Theorem find_overlaps_spec (our_components external_components : list Component)
    (threshold : Qc) :
  (forall o e, Binary64.combined_similarity o e = Ok (sim_of o e)) /\
  (forall o e,
     (exists r, Binary64.truediv (line_count e) (Z.max (line_count o) 1) = Ok r) \/
     Binary64.truediv (line_count e) (Z.max (line_count o) 1) = Raise OverflowError) /\
  ((exists o e, o ∈ our_components /\ e ∈ external_components /\
      kind o = kind e /\ (threshold ≤ sim_of o e)%Qc /\
      Binary64.truediv (line_count e) (Z.max (line_count o) 1) = Raise OverflowError) ->
   find_overlaps our_components external_components threshold = Raise OverflowError) /\
  ((forall o e, o ∈ our_components -> e ∈ external_components ->
      kind o = kind e -> (threshold ≤ sim_of o e)%Qc ->
      exists r, Binary64.truediv (line_count e) (Z.max (line_count o) 1) = Ok r) ->
   exists matches : list Match,
     find_overlaps our_components external_components threshold = Ok matches /\
     pair_of <$> matches ≡ₚ discovery_order our_components external_components threshold /\
     (forall m, m ∈ matches ->
        ours m ∈ our_components /\ theirs m ∈ external_components /\
        kind (ours m) = kind (theirs m) /\
        Binary64.combined_similarity (ours m) (theirs m) = Ok (similarity m) /\
        (threshold ≤ similarity m)%Qc /\
        Binary64.truediv (line_count (theirs m)) (Z.max (line_count (ours m)) 1)
        = Ok (size_ratio m)) /\
     (forall o e s, o ∈ our_components -> e ∈ external_components ->
        kind o = kind e -> Binary64.combined_similarity o e = Ok s -> (threshold ≤ s)%Qc ->
        exists m, m ∈ matches /\ ours m = o /\ theirs m = e /\ similarity m = s) /\
     StronglySorted by_similarity_desc matches /\
     (forall q : Qc,
        pair_of <$> filter (λ m, similarity m = q) matches
        = filter (λ p, sim_of p.1 p.2 = q)
            (discovery_order our_components external_components threshold))).
Proof.
  split; [intros o e; apply combined_similarity_ok|].
  split.
  { intros o e. destruct (size_ratio_returns_or_overflows o e) as [[H _]|[H _]];
      [left; by eexists|by right]. }
  set (D := discovery_order our_components external_components threshold).
  destruct (find_overlaps_cases our_components external_components threshold)
    as [[(o & e & Ho & He & Hk & Ht & Hov) E]|[Hin E]].
  - split; [intros _; exact E|].
    intros Hall. destruct (Hall o e Ho He Hk Ht) as (r & Hr).
    destruct (size_ratio_returns_or_overflows o e) as [[_ H]|[H _]]; congruence.
  - split.
    { intros (o & e & Ho & He & Hk & Ht & Hr).
      destruct (size_ratio_returns_or_overflows o e) as [[H _]|[_ H]]; [congruence|].
      rewrite (Hin o e Ho He Hk Ht) in H. discriminate. }
    intros _. exists (sort_desc (match_of <$> D)).
    split; [exact E|]. split; [|split; [|split; [|split]]].
    + by rewrite sort_desc_perm, pair_of_match_of.
    + intros m (p & -> & Ho & He & Hk & Ht)%elem_of_find_overlaps. simpl.
      repeat split; try done; [apply combined_similarity_ok|].
      destruct (size_ratio_returns_or_overflows p.1 p.2) as [[H _]|[_ H]]; [done|].
      rewrite (Hin p.1 p.2 Ho He Hk Ht) in H. discriminate.
    + intros o e s Ho He Hk Hs Ht.
      rewrite combined_similarity_ok in Hs. apply Ok_inj in Hs. subst s.
      exists (match_of (o, e)). split; [|done].
      apply elem_of_find_overlaps. by exists (o, e).
    + apply sort_desc_sorted.
    + intros q. rewrite sort_desc_stable, filter_similarity_match_of.
      apply pair_of_match_of.
Qed.

(** The amended C5 at a pair whose scores differ only by rounding: the
    names of the first pair give [0.6 * (2 / 3)], which is
    0.39999999999999997 in binary64, the keywords of the second give
    [0.4 * 1.0]; the second pair, discovered last, is listed first. *)
Lemma find_overlaps_rounding_order :
  find_overlaps [c_two_thirds; c_same_keywords] [c_two_thirds'; c_same_keywords'] float_0_3
  = Ok [match_of (c_same_keywords, c_same_keywords'); match_of (c_two_thirds, c_two_thirds')] /\
  (sim_of c_two_thirds c_two_thirds' < sim_of c_same_keywords c_same_keywords')%Qc /\
  combined_similarity c_two_thirds c_two_thirds'
  = combined_similarity c_same_keywords c_same_keywords'.
Proof.
  split; [|split].
  - rewrite find_overlaps_eq.
    assert (ED : discovery_order [c_two_thirds; c_same_keywords]
                   [c_two_thirds'; c_same_keywords'] float_0_3
                 = [(c_two_thirds, c_two_thirds'); (c_same_keywords, c_same_keywords')]).
    { vm_compute. reflexivity. }
    rewrite ED. rewrite decide_True by (repeat constructor).
    reflexivity.
  - unfold Qclt. vm_compute. reflexivity.
  - vm_compute. reflexivity.
Qed.

(** At the threshold 0.2 the pair [fix-bug] / [fix-bugs] scores
    [0.6 * (1 / 3)], which is 0.19999999999999998 in binary64: it is not a
    match, and the external component is a gap. *)
Lemma finders_rounding_threshold :
  (sim_of c_fix c_fix_bugs < float_0_2)%Qc /\
  find_overlaps [c_fix] [c_fix_bugs] float_0_2 = Ok [] /\
  find_unmatched [c_fix_bugs] [c_fix] float_0_2 = Ok [c_fix_bugs].
Proof.
  split; [unfold Qclt; vm_compute; reflexivity|].
  split; vm_compute; reflexivity.
Qed.


Lemma find_overlaps_spec_witness :
  exists matches : list Match,
    find_overlaps [c_fix] [c_fix_bugs; c_fix_theirs] float_0_2 = Ok matches /\
    pair_of <$> matches
    ≡ₚ discovery_order [c_fix] [c_fix_bugs; c_fix_theirs] float_0_2.
Proof.
  destruct (find_overlaps_spec [c_fix] [c_fix_bugs; c_fix_theirs] float_0_2)
    as (_ & _ & _ & H).
  destruct H as (matches & E & P & _).
  - intros o e Ho He _ _.
    apply list_elem_of_singleton in Ho as ->.
    apply elem_of_cons in He as [->|He];
      [|apply list_elem_of_singleton in He as ->];
      eexists; vm_compute; reflexivity.
  - exists matches. split; [exact E|exact P].
Defined.

(** ** Gap finder *)

Lemma py_max_lt (a b t : Qc) : (Py.max a b < t)%Qc <-> (a < t)%Qc /\ (b < t)%Qc.
Proof.
  unfold Py.max. destruct (decide (a < b)%Qc) as [Hab|Hab].
  - split; [|tauto]. intros Hb. split; [|done]. by etrans.
  - apply Qcnot_lt_le in Hab. split; [|tauto].
    intros Ha. split; [done|]. by eapply Qcle_lt_trans.
Qed.

(** The running maximum ends below the threshold exactly when it started
    below it and every same-kind similarity is below it. *)
Lemma find_unmatched_best_spec (ext : Component) (os : list Component) (b t : Qc) :
  exists best : Qc,
    find_unmatched_best ext os b = Ok best /\
    ((best < t)%Qc <->
     (b < t)%Qc /\ forall o, o ∈ os -> kind o = kind ext -> (sim_of o ext < t)%Qc).
Proof.
  revert b. induction os as [|o os IH]; intros b; simpl.
  - exists b. split; [done|]. split; [|tauto].
    intros Hb. split; [done|]. intros o Ho. by apply elem_of_nil in Ho.
  - case_bool_decide as Hk.
    + destruct (IH b) as (best & Hbest & Hiff). exists best. split; [done|].
      rewrite Hiff. split; intros [Hb Hall]; (split; [done|]).
      * intros o' [->|Ho']%elem_of_cons Hk'; [done|by apply Hall].
      * intros o' Ho' Hk'. apply Hall; [by right|done].
    + rewrite combined_similarity_ok. simpl.
      destruct (IH (Py.max b (sim_of o ext))) as (best & Hbest & Hiff).
      exists best. split; [done|].
      rewrite Hiff, py_max_lt. split.
      * intros [[Hb Ho] Hall]. split; [done|].
        intros o' [->|Ho']%elem_of_cons Hk'; [done|by apply Hall].
      * intros [Hb Hall]. split; [split; [done|]|].
        -- apply Hall; [by left|done].
        -- intros o' Ho' Hk'. apply Hall; [by right|done].
Qed.

Lemma find_unmatched_loop_spec (exts os : list Component) (t : Qc)
    (acc : list Component) :
  exists unmatched : list Component,
    find_unmatched_loop exts os (list_to_set (name <$> os)) t acc = Ok unmatched /\
    exists kept, unmatched = acc ++ kept /\ sublist kept exts /\
      forall e, e ∈ kept <-> e ∈ exts /\ is_gap os t e.
Proof.
  revert acc. induction exts as [|e exts IH]; intros acc; simpl.
  - exists acc. split; [done|]. exists []. rewrite app_nil_r.
    split; [done|]. split; [done|]. intros e. split; [by intros ?%elem_of_nil|].
    by intros [?%elem_of_nil _].
  - destruct (find_unmatched_best_spec e os 0%Qc t) as (best & Hbest & Hiff).
    rewrite Hbest. simpl.
    assert (Hgap : (best < t)%Qc /\ name e ∉ (list_to_set (name <$> os) : gset string)
                   <-> is_gap os t e).
    { rewrite Hiff, elem_of_list_to_set, list_elem_of_fmap. unfold is_gap.
      split.
      - intros [[Ht Hall] Hn]. split; [done|]. split.
        + intros o Ho Hk. exists (sim_of o e).
          split; [apply combined_similarity_ok|by apply Hall].
        + intros o Ho Heq. apply Hn. by exists o.
      - intros (Ht & Hall & Hn). split; [split; [done|]|].
        + intros o Ho Hk. destruct (Hall o Ho Hk) as (s & Hs & Hlt).
          rewrite combined_similarity_ok in Hs. apply Ok_inj in Hs. by rewrite Hs.
        + intros (o & Heq & Ho). by apply (Hn o Ho). }
    destruct (bool_decide (best < t)%Qc && bool_decide (name e ∉ _)) eqn:Hc.
    + apply andb_true_iff in Hc as [H1%bool_decide_eq_true H2%bool_decide_eq_true].
      destruct (IH (acc ++ [e])) as (u & Hu & kept & -> & Hsub & Hkept).
      exists ((acc ++ [e]) ++ kept). split; [done|].
      exists (e :: kept). split; [by rewrite <- app_assoc|].
      split; [by constructor|].
      intros e'. rewrite !elem_of_cons, Hkept. split.
      * intros [->|[? ?]]; [|tauto]. split; [by left|]. apply Hgap. done.
      * intros [[->|?] ?]; [by left|right; done].
    + destruct (IH acc) as (u & Hu & kept & -> & Hsub & Hkept).
      exists (acc ++ kept). split; [done|].
      exists kept. split; [done|]. split; [by constructor|].
      intros e'. rewrite elem_of_cons, Hkept. split; [tauto|].
      intros [[->|?] Hg]; [|done]. exfalso.
      apply Hgap in Hg as [H1 H2].
      apply andb_false_iff in Hc as [Hc|Hc]; apply bool_decide_eq_false in Hc; done.
Qed.



(** ** Keyword extractor *)

Lemma lower_char_idemp (c : ascii) : Py.lower_char (Py.lower_char c) = Py.lower_char c.
Proof. destruct c as [[] [] [] [] [] [] [] []]; reflexivity. Qed.

Lemma lower_idemp (s : string) : Py.lower (Py.lower s) = Py.lower s.
Proof.
  induction s as [|c s IH]; simpl; [done|].
  by rewrite lower_char_idemp, IH.
Qed.

Lemma alnum_lower_char (c : ascii) :
  Py.between 97 122 c || Py.between 48 57 c = true -> Py.lower_char c = c.
Proof. destruct c as [[] [] [] [] [] [] [] []]; simpl; intros H; done. Qed.

Lemma sub_non_alnum_lower (w : string) :
  Py.lower (Re.sub_non_alnum w) = Re.sub_non_alnum w.
Proof.
  induction w as [|c w IH]; simpl; [done|].
  destruct (Py.between 97 122 c || Py.between 48 57 c) eqn:E; [|done].
  simpl. by rewrite alnum_lower_char, IH.
Qed.

Lemma all_lower_add (keywords : gset string) (k : string) :
  all_lower keywords -> Py.lower k = k -> all_lower (keywords ∪ {[k]}).
Proof.
  intros HK Hk x [Hx|Hx%elem_of_singleton]%elem_of_union; [by apply HK|by subst].
Qed.

Lemma all_lower_foldl {A : Type} (f : gset string -> A -> gset string) (l : list A) :
  (forall K a, all_lower K -> all_lower (f K a)) ->
  forall K, all_lower K -> all_lower (foldl f K l).
Proof.
  intros Hf. induction l as [|a l IH]; intros K HK; simpl; [done|].
  apply IH, Hf, HK.
Qed.

Lemma add_name_part_lower K part : all_lower K -> all_lower (add_name_part K part).
Proof.
  intros HK. unfold add_name_part. case_bool_decide; [|done].
  apply all_lower_add; [done|apply lower_idemp].
Qed.

Lemma add_heading_lower K g : all_lower K -> all_lower (add_heading K g).
Proof.
  unfold add_heading. apply all_lower_foldl. clear K.
  intros K w HK. unfold add_heading_word. case_bool_decide; [|done].
  apply all_lower_add; [done|apply sub_non_alnum_lower].
Qed.

Lemma add_trigger_lower K g : all_lower K -> all_lower (add_trigger K g).
Proof.
  unfold add_trigger. apply all_lower_foldl. clear K.
  intros K w HK. unfold add_trigger_word.
  destruct (_ && _); [|done].
  apply all_lower_add; [done|apply lower_idemp].
Qed.

(** C10: the keyword list is sorted in ascending string order, has no
    duplicate, and consists of lower-case strings. *)
Theorem extract_keywords_canonical (text name : string) :
  Sorted String.le (extract_keywords text name) /\
  NoDup (extract_keywords text name) /\
  Forall (λ k, Py.lower k = k) (extract_keywords text name).
Proof.
  unfold extract_keywords, Py.sorted.
  set (K := foldl add_trigger _ _).
  assert (HK : all_lower K).
  { subst K.
    apply all_lower_foldl; [apply add_trigger_lower|].
    apply all_lower_foldl; [apply add_heading_lower|].
    apply all_lower_foldl; [apply add_name_part_lower|].
    intros k Hk. by apply elem_of_empty in Hk. }
  split; [|split].
  - apply Sorted_merge_sort. apply _.
  - rewrite merge_sort_Permutation. apply NoDup_elements.
  - rewrite merge_sort_Permutation. apply Forall_forall.
    intros k Hk. apply HK. by apply elem_of_elements.
Qed.

(** C2 does not hold of the code: the name is split on hyphens only, so
    [my_skill] stays one part and becomes the keyword [my_skill], where the
    specification asks for [skill] alone. *)
Theorem extract_keywords_underscore_name :
  extract_keywords "" "my_skill" = ["my_skill"] /\
  Py.sorted (name_keywords_by_spec "my_skill") = ["skill"] /\
  Py.sorted (name_words "my_skill") = ["my"; "skill"].
Proof. repeat split; vm_compute; reflexivity. Qed.

(** ** Stripping and splitting *)

Lemma sapp_nil_l (s : string) : "" +:+ s = s.
Proof. reflexivity. Qed.

Lemma sapp_cons (c : ascii) (a b : string) : String c a +:+ b = String c (a +:+ b).
Proof. reflexivity. Qed.

Lemma sapp_nil_r (s : string) : s +:+ "" = s.
Proof. induction s as [|c s IH]; [done|]. by rewrite sapp_cons, IH. Qed.

Lemma sapp_assoc (a b c : string) : (a +:+ b) +:+ c = a +:+ b +:+ c.
Proof. induction a as [|x a IH]; [done|]. by rewrite !sapp_cons, IH. Qed.

Lemma sapp_nonempty_r (a b : string) : b <> "" -> a +:+ b <> "".
Proof. destruct a; [by rewrite sapp_nil_l|by rewrite sapp_cons]. Qed.

Lemma sapp_nonempty_l (a b : string) : a <> "" -> a +:+ b <> "".
Proof. destruct a; [done|by rewrite sapp_cons]. Qed.

Section Strip.
Variable p : ascii -> bool.

Lemma lstrip_length (s : string) :
  String.length (Py.lstrip_with p s) <= String.length s.
Proof. induction s as [|c s IH]; simpl; [lia|]. destruct (p c); simpl; lia. Qed.

Lemma lstrip_head (c : ascii) (s : string) :
  Py.lstrip_with p (String c s) = String c s -> p c = false.
Proof.
  simpl. destruct (p c); [|done]. intros H.
  pose proof (lstrip_length s) as Hl. rewrite H in Hl. simpl in Hl. lia.
Qed.

Lemma lstrip_rep (n : nat) (c : ascii) (s : string) :
  p c = true -> Py.lstrip_with p (rep n c +:+ s) = Py.lstrip_with p s.
Proof.
  intros H. induction n as [|n IH]; [done|].
  cbn [rep]. rewrite sapp_cons. simpl. by rewrite H.
Qed.

Lemma lstrip_app (a b : string) :
  a <> EmptyString -> Py.lstrip_with p a = a -> Py.lstrip_with p (a +:+ b) = a +:+ b.
Proof.
  destruct a as [|c a]; [done|]. intros _ H%lstrip_head.
  rewrite sapp_cons. simpl. by rewrite H.
Qed.

Lemma rstrip_rep (n : nat) (c : ascii) :
  p c = true -> Py.rstrip_with p (rep n c) = EmptyString.
Proof. intros H. induction n as [|n IH]; simpl; [done|]. by rewrite IH, H. Qed.

Lemma rstrip_app_rep (s : string) (n : nat) (c : ascii) :
  p c = true -> Py.rstrip_with p (s +:+ rep n c) = Py.rstrip_with p s.
Proof.
  intros H. induction s as [|d s IH]; [by apply rstrip_rep|].
  rewrite sapp_cons. simpl. by rewrite IH.
Qed.

Lemma rstrip_app (a b : string) :
  b <> EmptyString -> Py.rstrip_with p b = b -> Py.rstrip_with p (a +:+ b) = a +:+ b.
Proof.
  intros Hb H. induction a as [|c a IH]; [done|].
  rewrite sapp_cons. simpl. rewrite IH.
  pose proof (sapp_nonempty_r a b Hb) as Hne.
  by destruct (a +:+ b).
Qed.

(** A string that starts and ends outside the class, wrapped in any
    number of characters of the class, is stripped back to itself. *)
Lemma strip_with_layers (n m : nat) (c : ascii) (s : string) :
  p c = true -> untouched p s ->
  Py.strip_with p (rep n c +:+ s +:+ rep m c) = s.
Proof.
  intros Hc (Hs & Hl & Hr). unfold Py.strip_with.
  rewrite lstrip_rep by done. rewrite lstrip_app by done.
  by rewrite rstrip_app_rep.
Qed.

Lemma rstrip_rep_other (n : nat) (c : ascii) :
  p c = false -> Py.rstrip_with p (rep n c) = rep n c.
Proof.
  intros H. induction n as [|n IH]; simpl; [done|].
  rewrite IH. destruct n; simpl; [by rewrite H|done].
Qed.

(** Wrapping in characters outside the class keeps a string untouched. *)
Lemma untouched_wrap (n m : nat) (c : ascii) (s : string) :
  p c = false -> untouched p s -> untouched p (rep n c +:+ s +:+ rep m c).
Proof.
  intros Hc (Hs & Hl & Hr).
  assert (Hend : s +:+ rep m c <> EmptyString /\
                 Py.lstrip_with p (s +:+ rep m c) = s +:+ rep m c /\
                 Py.rstrip_with p (s +:+ rep m c) = s +:+ rep m c).
  { split; [by apply sapp_nonempty_l|]. split; [by apply lstrip_app|].
    destruct m as [|m].
    - cbn [rep]. by rewrite sapp_nil_r.
    - apply rstrip_app; [done|]. by apply rstrip_rep_other. }
  destruct Hend as (He & Hle & Hre).
  destruct n as [|n]; [done|].
  split; [by apply sapp_nonempty_l|]. split.
  - cbn [rep]. rewrite sapp_cons. simpl. by rewrite Hc.
  - by apply rstrip_app.
Qed.
End Strip.

Lemma contains_app (c : ascii) (a b : string) :
  Py.contains c (a +:+ String c b) = true.
Proof.
  induction a as [|d a IH]; [simpl; by rewrite Ascii.eqb_refl|].
  rewrite sapp_cons. simpl. by rewrite IH, orb_true_r.
Qed.

Lemma partition_app (c : ascii) (a b : string) :
  Py.contains c a = false -> Py.partition c (a +:+ String c b) = (a, b).
Proof.
  induction a as [|d a IH]; intros H.
  - rewrite sapp_nil_l. simpl. by rewrite Ascii.eqb_refl.
  - rewrite sapp_cons. simpl in *. apply orb_false_iff in H as [Hd Ha].
    by rewrite Hd, IH.
Qed.

Lemma startswith_app (c : ascii) (a b : string) :
  a <> "" -> Py.startswith c (a +:+ b) = Py.startswith c a.
Proof. by destruct a. Qed.

Lemma one_line_app (a b : string) :
  one_line (a +:+ b) = one_line a && one_line b.
Proof.
  induction a as [|c a IH]; [done|].
  rewrite sapp_cons. simpl. by rewrite IH, andb_assoc.
Qed.

Lemma one_line_rep (n : nat) (c : ascii) :
  Py.is_linebreak c = false -> one_line (rep n c) = true.
Proof. intros H. induction n as [|n IH]; simpl; [done|]. by rewrite H, IH. Qed.

Lemma linebreak_newline (c : ascii) :
  Py.is_linebreak c = false -> Py.is_newline c = false.
Proof. destruct c as [[] [] [] [] [] [] [] []]; simpl; intros H; done. Qed.

Lemma splitlines_one_line (s : string) :
  one_line s = true -> Py.splitlines (s +:+ nl) = [s].
Proof.
  induction s as [|c s IH]; intros H; [done|].
  simpl in H. apply andb_true_iff in H as [Hc Hs]. apply negb_true_iff in Hc.
  rewrite sapp_cons. cbn [Py.splitlines]. by rewrite Hc, IH.
Qed.

Lemma lazy_body_one_line (s : string) :
  one_line s = true ->
  Re.lazy_body (s +:+ nl +:+ "---" +:+ nl) = Some (s +:+ nl).
Proof.
  induction s as [|c s IH]; intros H; [done|].
  simpl in H. apply andb_true_iff in H as [Hc Hs]. apply negb_true_iff in Hc.
  rewrite sapp_cons. cbn [Re.lazy_body].
  by rewrite (linebreak_newline c Hc), IH.
Qed.

Lemma frontmatter_block_one_line (line : string) :
  line <> "" -> Py.lstrip_with Py.isspace line = line -> one_line line = true ->
  Re.frontmatter_block (one_line_document line) = Some (line +:+ nl).
Proof.
  intros Hne Hl H1. unfold one_line_document.
  change ("---" +:+ nl +:+ line +:+ nl +:+ "---" +:+ nl)
    with (String "-" (String "-" (String "-"
            (String Py.newline (line +:+ nl +:+ "---" +:+ nl))))).
  cbn [Re.frontmatter_block Re.spaces_newline].
  change (Py.isspace Py.newline) with true.
  change (Py.is_newline Py.newline) with true. cbv iota.
  assert (Hsp : Re.spaces_newline (line +:+ nl +:+ "---" +:+ nl) = []).
  { destruct line as [|c line]; [done|].
    apply lstrip_head in Hl. rewrite sapp_cons. simpl. by rewrite Hl. }
  rewrite Hsp. simpl. by rewrite lazy_body_one_line.
Qed.

Section Quotes.
Variables (key v : string) (k n n' m' m : nat).
Hypothesis key_trim : untouched Py.isspace key.
Hypothesis key_colon : Py.contains ":" key = false.
Hypothesis key_hash : Py.startswith "#" key = false.
Hypothesis v_trim : untouched Py.isspace v.
Hypothesis v_double : untouched (Ascii.eqb double_quote) v.
Hypothesis v_single : untouched (Ascii.eqb single_quote) v.

Lemma quoted_trim : untouched Py.isspace (quoted n n' v m' m).
Proof.
  unfold quoted. apply untouched_wrap; [done|]. by apply untouched_wrap.
Qed.

Lemma strip_quoted :
  Py.strip_char single_quote (Py.strip_char double_quote (quoted n n' v m' m)) = v.
Proof.
  unfold Py.strip_char, quoted.
  rewrite strip_with_layers; [|done|by apply untouched_wrap].
  by rewrite strip_with_layers.
Qed.

Lemma line_trim :
  Py.strip (key_value_line key k (quoted n n' v m' m))
  = key_value_line key k (quoted n n' v m' m).
Proof.
  destruct key_trim as (Hk & Hkl & _).
  destruct quoted_trim as (Hq & _ & Hqr).
  unfold Py.strip, Py.strip_with, key_value_line.
  rewrite lstrip_app by done.
  change (String ":" (rep k blank +:+ quoted n n' v m' m))
    with (String ":" "" +:+ rep k blank +:+ quoted n n' v m' m).
  rewrite <- !sapp_assoc. by apply rstrip_app.
Qed.

Lemma parse_line_quoted (result : gmap string string) :
  parse_frontmatter_line result (key_value_line key k (quoted n n' v m' m))
  = <[key := v]> result.
Proof.
  destruct key_trim as (Hk & Hkl & Hkr).
  unfold parse_frontmatter_line. cbv zeta. rewrite line_trim.
  unfold key_value_line.
  rewrite bool_decide_eq_false_2 by by apply sapp_nonempty_l.
  rewrite startswith_app, key_hash by done. cbn [orb].
  rewrite contains_app, partition_app by done.
  assert (Hval : Py.strip (rep k blank +:+ quoted n n' v m' m) = quoted n n' v m' m).
  { unfold Py.strip.
    rewrite <- (sapp_nil_r (quoted n n' v m' m)) at 1.
    change "" with (rep 0 blank).
    apply strip_with_layers; [done|apply quoted_trim]. }
  rewrite Hval, strip_quoted.
  unfold Py.strip, Py.strip_with. by rewrite Hkl, Hkr.
Qed.
End Quotes.

(** ** Frontmatter parser *)

Section Stripped.
Variable p : ascii -> bool.










Lemma lstrip_fixed (s : string) : starts_in p s = false -> Py.lstrip_with p s = s.
Proof. destruct s as [|c s]; [done|]. cbn [starts_in Py.lstrip_with]. by intros ->. Qed.

End Stripped.








(** The order of the strips shows in the result: double quotes inside
    single quotes stay, single quotes inside double quotes go; an empty
    value is stored as the empty string, a comment line stores nothing, and
    a key given twice keeps its last value. *)
Lemma parse_frontmatter_quote_order :
  parse_frontmatter (one_line_document (key_value_line "name" 1 (double_in_single "x")))
  = {[ "name" := rep 1 double_quote +:+ "x" +:+ rep 1 double_quote ]} /\
  parse_frontmatter (one_line_document (key_value_line "name" 1 (single_in_double "x")))
  = {[ "name" := "x" ]} /\
  parse_frontmatter doc_four_lines = {[ "name" := "y"; "description" := "" ]}.
Proof. repeat split; vm_compute; reflexivity. Qed.

(** A value wrapped in any number of double quotes around any number of
    single quotes is therefore returned bare, all layers removed. *)
Lemma parse_frontmatter_layers (key v : string) (k n n' m' m : nat) :
  untouched Py.isspace key ->
  Py.contains ":" key = false ->
  Py.startswith "#" key = false ->
  one_line key = true ->
  untouched Py.isspace v ->
  untouched (Ascii.eqb double_quote) v ->
  untouched (Ascii.eqb single_quote) v ->
  one_line v = true ->
  parse_frontmatter (one_line_document (key_value_line key k (quoted n n' v m' m)))
  = {[ key := v ]}.
Proof.
  intros Hk Hcolon Hhash Hk1 Hv Hvd Hvs Hv1.
  set (line := key_value_line key k (quoted n n' v m' m)).
  assert (Hline1 : one_line line = true).
  { unfold line, key_value_line, quoted.
    change (String ":" (rep k blank +:+ ?x)) with (rep 1 ":" +:+ rep k blank +:+ x).
    rewrite !one_line_app, Hk1, Hv1, !one_line_rep; done. }
  assert (Hne : line <> "").
  { apply sapp_nonempty_l, Hk. }
  assert (Hl : Py.lstrip_with Py.isspace line = line).
  { apply lstrip_app; apply Hk. }
  unfold parse_frontmatter.
  rewrite frontmatter_block_one_line by done.
  rewrite splitlines_one_line by done.
  cbn [foldl]. unfold line.
  rewrite parse_line_quoted by done. reflexivity.
Qed.

(** ** Catalog store *)

Lemma as_strs_fmap (field : string) (l : list string) :
  as_strs field (JStr <$> l) = Ok l.
Proof.
  induction l as [|x l IH]; [done|].
  rewrite fmap_cons. cbn [as_strs as_str rbind]. by rewrite IH.
Qed.

Lemma save_catalog_fmap (components : list Component) :
  save_catalog components = save_record <$> components.
Proof.
  unfold save_catalog.
  assert (H : forall acc, foldl (λ data c, data ++ [save_record c]) acc components
                          = acc ++ (save_record <$> components)).
  { induction components as [|c cs IH]; intros acc; simpl.
    - by rewrite app_nil_r.
    - rewrite IH, <- app_assoc. reflexivity. }
  apply (H []).
Qed.

Lemma load_save_record (c : Component) :
  load_record (save_record c) = Ok (without_frontmatter c).
Proof.
  unfold load_record, save_record, getitem, get.
  repeat (rewrite ?lookup_insert_eq; rewrite ?lookup_insert_ne by done).
  simpl. rewrite !as_strs_fmap. reflexivity.
Qed.

Lemma load_save_records (components : list Component) :
  load_records (save_record <$> components) = Ok (without_frontmatter <$> components).
Proof.
  induction components as [|c cs IH]; [done|].
  rewrite fmap_cons. cbn [load_records].
  rewrite load_save_record, IH. reflexivity.
Qed.

(** C6: loading what [save_catalog] wrote gives the components back with
    every field but the frontmatter, which is the empty mapping; a record
    that has the four keys kind, name, repo and path loads, each absent
    optional field taking its zero value (empty string, empty list, 0,
    false); a record lacking one of the four raises [KeyError]; a cache
    file that does not exist loads as the empty list. *)
Theorem catalog_round_trip :
  (forall components : list Component,
     load_catalog (Some (save_catalog components))
     = Ok (without_frontmatter <$> components)) /\
  (forall (d : gmap string json) (k n r p : string),
     d !! "kind" = Some (JStr k) -> d !! "name" = Some (JStr n) ->
     d !! "repo" = Some (JStr r) -> d !! "path" = Some (JStr p) ->
     optional_typed d ->
     exists c, load_record d = Ok c /\
       kind c = k /\ name c = n /\ repo c = r /\ path c = p /\
       frontmatter c = ∅ /\
       match d !! "description" with
       | None => description c = "" | Some v => v = JStr (description c) end /\
       match d !! "keywords" with
       | None => keywords c = [] | Some v => v = JList (JStr <$> keywords c) end /\
       match d !! "line_count" with
       | None => line_count c = 0%Z | Some v => v = JInt (line_count c) end /\
       match d !! "has_references" with
       | None => has_references c = false | Some v => v = JBool (has_references c) end /\
       match d !! "reference_files" with
       | None => reference_files c = []
       | Some v => v = JList (JStr <$> reference_files c) end) /\
  (forall (d : gmap string json) (key : string),
     key ∈ required_keys -> d !! key = None ->
     exists key', key' ∈ required_keys /\ d !! key' = None /\
       load_record d = Raise (KeyError key')) /\
  load_catalog None = Ok [].
Proof.
  split; [|split; [|split]].
  - intros components. cbn [load_catalog].
    rewrite save_catalog_fmap. apply load_save_records.
  - intros d k n r p Hk Hn Hr Hp (H1 & H2 & H3 & H4 & H5).
    unfold load_record, getitem, get. rewrite Hk, Hn, Hr, Hp.
    destruct H1 as [H1|[s1 H1]]; destruct H2 as [H2|[s2 H2]];
      destruct H3 as [H3|[s3 H3]]; destruct H4 as [H4|[s4 H4]];
      destruct H5 as [H5|[s5 H5]];
      rewrite H1, H2, H3, H4, H5;
      cbn [default from_option id rbind as_str as_int as_bool as_str_list];
      rewrite ?as_strs_fmap; cbn [as_strs rbind];
      (eexists; split; [reflexivity|]); cbn; repeat split.
  - intros d key Hkey Hnone.
    unfold load_record, getitem, required_keys.
    destruct (d !! "kind") as [vk|] eqn:Ek;
      [|exists "kind"; split; [apply list_elem_of_In; simpl; tauto|by split]].
    destruct (d !! "name") as [vn|] eqn:En;
      [|exists "name"; split; [apply list_elem_of_In; simpl; tauto|by split]].
    destruct (d !! "repo") as [vr|] eqn:Er;
      [|exists "repo"; split; [apply list_elem_of_In; simpl; tauto|by split]].
    destruct (d !! "path") as [vp|] eqn:Ep;
      [|exists "path"; split; [apply list_elem_of_In; simpl; tauto|by split]].
    exfalso. unfold required_keys in Hkey.
    repeat (apply elem_of_cons in Hkey as [->|Hkey]; [congruence|]).
    by apply elem_of_nil in Hkey.
  - reflexivity.
Qed.

(** ** Report generator *)

(** C3 does not hold of the code: under the filter [skill] the repository
    summary counts the filtered components (0 skills, 0 agents), but the
    statistics line "External components scanned" counts every component of
    [external_by_repo], here 1, although no external component is a
    skill. *)
Theorem generate_report_external_count (now : string) (fmt_2f fmt_1f : Qc -> string) :
  generate_report_lines now fmt_2f fmt_1f [] one_agent_repo [] [] (Some "skill")
  = [ "# Repo Comparison Report"; "";
      "Generated: " +:+ now; "";
      "## Our Plugin Inventory"; "";
      "## External Repos Scanned"; "";
      "- **ext**: 0 skills, 0 agents"; "";
      "## Overlapping Components (0 matches)"; "";
      "## Unmatched External Components (0 items)"; "";
      "These exist in external repos but have no counterpart in our plugin."; "";
      "## Statistics"; "";
      "- Our components: 0";
      "- External components scanned: 1";
      "- Overlapping matches: 0";
      "- High-similarity (>=0.50): 0";
      "- Unmatched external: 0";
      "" ] /\
  length (filter (λ c, kind c = "skill") [c_reviewer]) = 0.
Proof. split; vm_compute; reflexivity. Qed.

(* ========================================================================= *)
(** * Further properties *)

(** ** Frontmatter parser: edge behaviour and invariants *)

Lemma not_hyphen_match {A : Type} (c : ascii) (x y : A) :
  c <> "-"%char ->
  match c with
  | "-"%char => x
  | _ => y
  end = y.
Proof.
  intros H. destruct c as [[] [] [] [] [] [] [] []]; try reflexivity.
  by destruct H.
Qed.

(** X1: a document that does not start with three hyphens has no
    frontmatter: the mapping is empty. *)
Theorem parse_frontmatter_no_marker (text : string) :
  String.prefix "---" text = false -> parse_frontmatter text = ∅.
Proof.
  intros H. unfold parse_frontmatter.
  assert (E : Re.frontmatter_block text = None); [|by rewrite E].
  destruct text as [|c1 [|c2 [|c3 r]]]; try reflexivity.
  - unfold Re.frontmatter_block.
    destruct (decide (c1 = "-"%char)) as [->|H1]; [reflexivity|].
    by rewrite not_hyphen_match.
  - unfold Re.frontmatter_block.
    destruct (decide (c1 = "-"%char)) as [->|H1]; [|by rewrite not_hyphen_match].
    destruct (decide (c2 = "-"%char)) as [->|H2]; [reflexivity|].
    by rewrite not_hyphen_match.
  - unfold Re.frontmatter_block.
    destruct (decide (c1 = "-"%char)) as [->|H1]; [|by rewrite not_hyphen_match].
    destruct (decide (c2 = "-"%char)) as [->|H2]; [|by rewrite not_hyphen_match].
    destruct (decide (c3 = "-"%char)) as [->|H3]; [|by rewrite not_hyphen_match].
    exfalso. simpl in H. by destruct r.
Qed.

Lemma parse_frontmatter_no_marker_witness :
  parse_frontmatter "# Title" = ∅.
Proof. apply parse_frontmatter_no_marker. reflexivity. Defined.

Section StripTwice.
Variable p : ascii -> bool.

Lemma lstrip_idemp (s : string) :
  Py.lstrip_with p (Py.lstrip_with p s) = Py.lstrip_with p s.
Proof.
  induction s as [|c s IH]; [done|].
  simpl. destruct (p c) eqn:E; [done|]. simpl. by rewrite E.
Qed.

Lemma rstrip_idemp (s : string) :
  Py.rstrip_with p (Py.rstrip_with p s) = Py.rstrip_with p s.
Proof.
  induction s as [|c s IH]; [done|].
  simpl. destruct (Py.rstrip_with p s) as [|d r] eqn:E.
  - destruct (p c) eqn:Ec; [done|]. simpl. by rewrite Ec.
  - change (Py.rstrip_with p (String c (String d r)))
      with (match Py.rstrip_with p (String d r) with
            | EmptyString => if p c then EmptyString else String c EmptyString
            | r' => String c r'
            end).
    by rewrite IH.
Qed.

(** Trimming the right end keeps the first character. *)
Lemma rstrip_head (c : ascii) (s : string) :
  p c = false -> exists r, Py.rstrip_with p (String c s) = String c r.
Proof.
  intros Hc. simpl. destruct (Py.rstrip_with p s) as [|d r].
  - rewrite Hc. by eexists.
  - by eexists.
Qed.

Lemma lstrip_rstrip (s : string) :
  Py.lstrip_with p s = s ->
  Py.lstrip_with p (Py.rstrip_with p s) = Py.rstrip_with p s.
Proof.
  destruct s as [|c s]; [done|]. intros Hc%lstrip_head.
  destruct (rstrip_head c s Hc) as (r & ->). simpl. by rewrite Hc.
Qed.

Lemma lstrip_strip (s : string) :
  Py.lstrip_with p (Py.strip_with p s) = Py.strip_with p s.
Proof. unfold Py.strip_with. apply lstrip_rstrip, lstrip_idemp. Qed.

Lemma strip_with_idemp (s : string) :
  Py.strip_with p (Py.strip_with p s) = Py.strip_with p s.
Proof.
  unfold Py.strip_with at 1. rewrite lstrip_strip.
  unfold Py.strip_with. apply rstrip_idemp.
Qed.

Lemma contains_lstrip (c : ascii) (s : string) :
  Py.contains c s = false -> Py.contains c (Py.lstrip_with p s) = false.
Proof.
  induction s as [|d s IH]; [done|]. intros H.
  simpl. destruct (p d); [|done].
  apply IH. simpl in H. by apply orb_false_iff in H as [_ ?].
Qed.

Lemma contains_rstrip (c : ascii) (s : string) :
  Py.contains c s = false -> Py.contains c (Py.rstrip_with p s) = false.
Proof.
  induction s as [|d s IH]; [done|]. intros H.
  simpl in H. apply orb_false_iff in H as [Hd Hs].
  simpl. specialize (IH Hs). destruct (Py.rstrip_with p s) as [|e r].
  - destruct (p d); [done|]. simpl. by rewrite Hd.
  - simpl. simpl in IH. by rewrite Hd, IH.
Qed.

Lemma contains_strip (c : ascii) (s : string) :
  Py.contains c s = false -> Py.contains c (Py.strip_with p s) = false.
Proof. intros H. by apply contains_rstrip, contains_lstrip. Qed.
End StripTwice.

Lemma partition_key_no_sep (sep : ascii) (s : string) :
  Py.contains sep (Py.partition sep s).1 = false.
Proof.
  induction s as [|c s IH]; [done|].
  simpl. destruct (Ascii.eqb c sep) eqn:E; [done|].
  destruct (Py.partition sep s) as [k v]. simpl in *. by rewrite E, IH.
Qed.

(** The key cut from a trimmed line that is no comment does not start a
    comment either, also after trimming. *)
Lemma partition_key_no_hash (line : string) :
  Py.lstrip_with Py.isspace line = line ->
  Py.startswith "#" line = false ->
  Py.startswith "#" (Py.strip (Py.partition ":" line).1) = false.
Proof.
  destruct line as [|c s]; [done|]. intros Hc%lstrip_head Hh.
  simpl in Hh. simpl.
  destruct (Ascii.eqb c ":"); [done|].
  destruct (Py.partition ":" s) as [k v]. simpl.
  unfold Py.strip, Py.strip_with.
  rewrite lstrip_app with (a := String c "") (b := k); [|done|by simpl; rewrite Hc].
  destruct (rstrip_head Py.isspace c k Hc) as (r & Hr).
  change (String c "" +:+ k) with (String c k). by rewrite Hr.
Qed.

Lemma parse_frontmatter_line_clean (result : gmap string string) (line : string) :
  clean_mapping result -> clean_mapping (parse_frontmatter_line result line).
Proof.
  intros Hres. unfold parse_frontmatter_line. cbv zeta.
  destruct (bool_decide (Py.strip line = "") || Py.startswith "#" (Py.strip line))
    eqn:Hskip; [done|].
  apply orb_false_iff in Hskip as [_ Hhash].
  destruct (Py.contains ":" (Py.strip line)); [|done].
  pose proof (partition_key_no_sep ":" (Py.strip line)) as Hcolon.
  pose proof (partition_key_no_hash (Py.strip line)
                (lstrip_strip Py.isspace line) Hhash) as Hh.
  destruct (Py.partition ":" (Py.strip line)) as [key val]. simpl in *.
  intros k v. rewrite lookup_insert. case_decide as Hk; [|by apply Hres].
  intros [= <-]. subst k. split; [split; [|split]|].
  - apply strip_with_idemp.
  - by apply contains_strip.
  - exact Hh.
  - apply strip_with_idemp.
Qed.

(** X2: whatever the document, every key of the parsed mapping is trimmed
    of whitespace, contains no colon and does not start with [#], and no
    value starts or ends with a single quote. *)
Theorem parse_frontmatter_clean (text : string) :
  forall key val, parse_frontmatter text !! key = Some val ->
    (Py.strip key = key /\ Py.contains ":" key = false /\
     Py.startswith "#" key = false) /\
    Py.strip_char single_quote val = val.
Proof.
  unfold parse_frontmatter.
  destruct (Re.frontmatter_block text) as [block|]; [|by intros ?? ?%lookup_empty_Some].
  assert (H : forall l result, clean_mapping result ->
                clean_mapping (foldl parse_frontmatter_line result l)).
  { induction l as [|x l IH]; intros result Hr; [done|].
    simpl. by apply IH, parse_frontmatter_line_clean. }
  apply H. by intros ?? ?%lookup_empty_Some.
Qed.

Lemma parse_frontmatter_clean_witness :
  (Py.strip "name" = "name" /\ Py.contains ":" "name" = false /\
   Py.startswith "#" "name" = false) /\
  Py.strip_char single_quote "my skill" = "my skill".
Proof.
  apply (parse_frontmatter_clean doc_two_layers "name" "my skill").
  vm_compute. reflexivity.
Defined.

(** ** Keyword extractor: lengths and name parts *)

Lemma lower_length (s : string) : String.length (Py.lower s) = String.length s.
Proof. induction s as [|c s IH]; simpl; [done|]. by rewrite IH. Qed.

Lemma keywords_all_add (P : string -> Prop) (K : gset string) (k : string) :
  keywords_all P K -> P k -> keywords_all P (K ∪ {[k]}).
Proof.
  intros HK Hk x [Hx|Hx%elem_of_singleton]%elem_of_union; [by apply HK|by subst].
Qed.

Lemma keywords_all_foldl {A : Type} (P : string -> Prop)
    (f : gset string -> A -> gset string) (l : list A) :
  (forall K a, keywords_all P K -> keywords_all P (f K a)) ->
  forall K, keywords_all P K -> keywords_all P (foldl f K l).
Proof.
  intros Hf. induction l as [|a l IH]; intros K HK; simpl; [done|].
  apply IH, Hf, HK.
Qed.

(** The folds of [extract_keywords] only add keywords. *)
Lemma foldl_grows {A : Type} (f : gset string -> A -> gset string) (l : list A) :
  (forall K a, K ⊆ f K a) -> forall K, K ⊆ foldl f K l.
Proof.
  intros Hf. induction l as [|a l IH]; intros K; simpl; [done|].
  etrans; [apply (Hf K a)|apply IH].
Qed.

Lemma add_heading_word_grows K w : K ⊆ add_heading_word K w.
Proof.
  unfold add_heading_word. case_bool_decide; [apply union_subseteq_l|done].
Qed.

Lemma add_heading_grows K g : K ⊆ add_heading K g.
Proof. unfold add_heading. apply foldl_grows, add_heading_word_grows. Qed.

Lemma add_trigger_word_grows K w : K ⊆ add_trigger_word K w.
Proof.
  unfold add_trigger_word. destruct (_ && _); [apply union_subseteq_l|done].
Qed.

Lemma add_trigger_grows K g : K ⊆ add_trigger K g.
Proof. unfold add_trigger. apply foldl_grows, add_trigger_word_grows. Qed.

Lemma add_name_part_grows K part : K ⊆ add_name_part K part.
Proof.
  unfold add_name_part. case_bool_decide; [apply union_subseteq_l|done].
Qed.

Lemma elem_of_extract_keywords (text name k : string) :
  k ∈ extract_keywords text name <->
  k ∈ foldl add_trigger
        (foldl add_heading (foldl add_name_part ∅ (name_parts name))
           (Re.finditer Re.heading 0 true text))
        (Re.finditer Re.trigger 0 true text).
Proof.
  unfold extract_keywords, Py.sorted, name_parts.
  by rewrite merge_sort_Permutation, elem_of_elements.
Qed.

(** X3: every keyword has at least three characters, whatever the text and
    the name. *)
Theorem extract_keywords_min_length (text name : string) :
  Forall (λ k, 3 <= String.length k) (extract_keywords text name).
Proof.
  apply Forall_forall. intros k Hk%elem_of_extract_keywords.
  revert k Hk. fold (keywords_all (λ k, 3 <= String.length k)).
  apply keywords_all_foldl.
  { intros K g. unfold add_trigger. apply keywords_all_foldl. clear.
    intros K w HK. unfold add_trigger_word.
    destruct (bool_decide _ && bool_decide _) eqn:E; [|done].
    apply andb_true_iff in E as [E%bool_decide_eq_true _].
    apply keywords_all_add; [done|]. lia. }
  apply keywords_all_foldl.
  { intros K g. unfold add_heading. apply keywords_all_foldl. clear.
    intros K w HK. unfold add_heading_word. case_bool_decide; [|done].
    apply keywords_all_add; [done|]. lia. }
  apply keywords_all_foldl.
  { intros K part HK. unfold add_name_part. case_bool_decide; [|done].
    apply keywords_all_add; [done|]. rewrite lower_length. lia. }
  intros k Hk. by apply elem_of_empty in Hk.
Qed.

Lemma foldl_add_name_part (parts : list string) (K : gset string) :
  foldl add_name_part K parts
  = K ∪ list_to_set (Py.lower <$> filter (λ part, 2 < String.length part) parts).
Proof.
  revert K. induction parts as [|part parts IH]; intros K.
  - simpl. by rewrite (right_id_L ∅ (∪)).
  - cbn [foldl]. rewrite IH, filter_cons. unfold add_name_part.
    case_bool_decide as Hlen.
    + rewrite decide_True by done. rewrite fmap_cons. cbn [list_to_set].
      by rewrite (assoc_L (∪)).
    + by rewrite decide_False.
Qed.

(** X4: a part of the name (the name cut at hyphens and whitespace) that
    is longer than two characters is a keyword, lower-cased, whatever the
    text holds. *)
Theorem extract_keywords_name_part (text name part : string) :
  part ∈ name_parts name -> 2 < String.length part ->
  Py.lower part ∈ extract_keywords text name.
Proof.
  intros Hpart Hlen. apply elem_of_extract_keywords.
  eapply foldl_grows; [apply add_trigger_grows|].
  eapply foldl_grows; [apply add_heading_grows|].
  rewrite foldl_add_name_part. apply elem_of_union_r, elem_of_list_to_set.
  apply list_elem_of_fmap. exists part. split; [done|].
  by apply list_elem_of_filter.
Qed.

Lemma extract_keywords_name_part_witness :
  "export" ∈ extract_keywords "## Usage notes" "PDF-Export".
Proof.
  apply (extract_keywords_name_part "## Usage notes" "PDF-Export" "Export").
  - vm_compute. apply list_elem_of_In. simpl. tauto.
  - vm_compute. lia.
Defined.

(** X5: for a text in which neither the heading pattern nor the trigger
    pattern matches, the keywords are exactly the lower-cased name parts
    longer than two characters, sorted. *)
Theorem extract_keywords_plain_text (text name : string) :
  Re.finditer Re.heading 0 true text = [] ->
  Re.finditer Re.trigger 0 true text = [] ->
  extract_keywords text name
  = Py.sorted (list_to_set
                 (Py.lower <$> filter (λ part, 2 < String.length part) (name_parts name))).
Proof.
  intros Hh Ht. unfold extract_keywords. rewrite Hh, Ht. cbn [foldl].
  fold (name_parts name). rewrite foldl_add_name_part.
  by rewrite (left_id_L ∅ (∪)).
Qed.

Lemma extract_keywords_plain_text_witness :
  extract_keywords "Exports a page. # no heading" "pdf-export"
  = Py.sorted (list_to_set
                 (Py.lower <$> filter (λ part, 2 < String.length part)
                                 (name_parts "pdf-export"))).
Proof.
  apply (extract_keywords_plain_text "Exports a page. # no heading" "pdf-export");
    reflexivity.
Defined.

(** ** Similarity engine: what the score depends on *)

(** X6: the combined similarity reads a component only through its name and
    the set of its keywords: kind, repo, path, description, line count, and
    the order and repetition of keywords do not matter. *)
Theorem combined_similarity_name_keywords (c c' d : Component) :
  name c = name c' ->
  (forall k, k ∈ keywords c <-> k ∈ keywords c') ->
  combined_similarity c d = combined_similarity c' d.
Proof.
  intros Hn Hk. unfold combined_similarity, keyword_similarity. rewrite Hn.
  assert (E : (list_to_set (keywords c) : gset string) = list_to_set (keywords c')).
  { apply leibniz_equiv. intros k. rewrite !elem_of_list_to_set. apply Hk. }
  by rewrite E.
Qed.

Lemma combined_similarity_name_keywords_witness :
  combined_similarity c_fix c_pdf = combined_similarity c_fix_agent c_pdf.
Proof.
  apply (combined_similarity_name_keywords c_fix c_fix_agent c_pdf).
  - reflexivity.
  - intros k. simpl. rewrite !elem_of_cons. tauto.
Defined.

Lemma name_char_lower (c : ascii) :
  Py.lower_char
    (if Ascii.eqb (if Ascii.eqb (Py.lower_char c) hyphen then blank else Py.lower_char c)
                  underscore
     then blank
     else if Ascii.eqb (Py.lower_char c) hyphen then blank else Py.lower_char c)
  = Py.lower_char
      (if Ascii.eqb (if Ascii.eqb c hyphen then blank else c) underscore
       then blank
       else if Ascii.eqb c hyphen then blank else c).
Proof. destruct c as [[] [] [] [] [] [] [] []]; reflexivity. Qed.

Lemma name_char_underscore (c : ascii) :
  (if Ascii.eqb (if Ascii.eqb (if Ascii.eqb c underscore then hyphen else c) hyphen
                 then blank else (if Ascii.eqb c underscore then hyphen else c))
                underscore
   then blank
   else if Ascii.eqb (if Ascii.eqb c underscore then hyphen else c) hyphen
        then blank else (if Ascii.eqb c underscore then hyphen else c))
  = (if Ascii.eqb (if Ascii.eqb c hyphen then blank else c) underscore
     then blank
     else if Ascii.eqb c hyphen then blank else c).
Proof. destruct c as [[] [] [] [] [] [] [] []]; reflexivity. Qed.

Lemma name_words_lower (a : string) : name_words (Py.lower a) = name_words a.
Proof.
  unfold name_words. f_equal. f_equal.
  induction a as [|c a IH]; [done|].
  cbn [Py.lower Py.replace]. by rewrite name_char_lower, IH.
Qed.

Lemma name_words_underscore (a : string) :
  name_words (Py.replace underscore hyphen a) = name_words a.
Proof.
  unfold name_words. f_equal. f_equal. f_equal.
  induction a as [|c a IH]; [done|].
  cbn [Py.replace]. by rewrite name_char_underscore, IH.
Qed.

(** X7: the name similarity does not tell upper case from lower case, nor
    an underscore from a hyphen. *)
Theorem name_similarity_normalises (a b : string) :
  name_similarity (Py.lower a) b = name_similarity a b /\
  name_similarity (Py.replace underscore hyphen a) b = name_similarity a b.
Proof.
  unfold name_similarity. by rewrite name_words_lower, name_words_underscore.
Qed.

Lemma truediv_zero (u : Z) : u <> 0%Z -> Py.truediv 0 u = Ok 0%Qc.
Proof.
  intros Hu. unfold Py.truediv. rewrite bool_decide_eq_false_2 by done.
  f_equal. apply Qc_is_canon. simpl. rewrite Qred_correct.
  unfold Qdiv. apply Qmult_0_l.
Qed.

Lemma jaccard_disjoint (A B : gset string) : A ∩ B = ∅ -> jaccard A B = Ok 0%Qc.
Proof.
  intros Hd. unfold jaccard.
  destruct (bool_decide (A = ∅) || bool_decide (B = ∅)) eqn:E; [done|].
  apply orb_false_iff in E as [EA%bool_decide_eq_false _].
  rewrite Hd. apply truediv_zero. intros Hz%len_zero_iff. apply EA.
  apply leibniz_equiv, (proj1 (empty_union A B)). by rewrite Hz.
Qed.

Lemma Qc_weight_le (ks : Qc) :
  (0 ≤ ks)%Qc -> (ks ≤ 1)%Qc ->
  (w_name ≤ w_name * 1 + w_keyword * ks)%Qc /\
  (w_name * 0 + w_keyword * ks ≤ w_keyword)%Qc.
Proof.
  unfold Qcle. intros H0 H1. unfold w_name, w_keyword. simpl in *.
  rewrite !Qred_correct.
  change (Qred 0) with 0%Q in *. change (Qred 1) with 1%Q in *.
  split; lra.
Qed.

Lemma Qc_weights_zero : (w_name * 0 + w_keyword * 0 = 0)%Qc.
Proof. ring. Qed.

(** X8: two components with the same name score at least 0.6, whatever
    their keywords. *)
Theorem combined_similarity_same_name (a b : Component) :
  name a = name b ->
  exists s, combined_similarity a b = Ok s /\ (w_name ≤ s)%Qc.
Proof.
  intros Hn. unfold combined_similarity.
  pose proof (jaccard_bounds (name_words (name a)) (name_words (name b)))
    as (ns & Hns & _).
  pose proof (jaccard_bounds (list_to_set (keywords a)) (list_to_set (keywords b)))
    as (ks & Hks & Hks0 & Hks1).
  rewrite name_similarity_jaccard, keyword_similarity_jaccard, Hns, Hks. simpl.
  rewrite bool_decide_eq_true_2 by done.
  eexists. split; [reflexivity|]. by apply Qc_weight_le.
Qed.

Lemma combined_similarity_same_name_witness :
  exists s, combined_similarity c_fix c_fix_theirs = Ok s /\ (w_name ≤ s)%Qc.
Proof. apply (combined_similarity_same_name c_fix c_fix_theirs). reflexivity. Defined.

(** X9: two components with different names that share no name word score
    at most 0.4, and exactly 0.0 when they share no keyword either. *)
Theorem combined_similarity_disjoint_names (a b : Component) :
  name a <> name b ->
  name_words (name a) ∩ name_words (name b) = ∅ ->
  exists s, combined_similarity a b = Ok s /\ (s ≤ w_keyword)%Qc /\
    ((list_to_set (keywords a) : gset string) ∩ list_to_set (keywords b) = ∅ ->
     s = 0%Qc).
Proof.
  intros Hn Hw. unfold combined_similarity.
  rewrite name_similarity_jaccard, (jaccard_disjoint _ _ Hw).
  pose proof (jaccard_bounds (list_to_set (keywords a)) (list_to_set (keywords b)))
    as (ks & Hks & Hks0 & Hks1).
  rewrite keyword_similarity_jaccard, Hks. simpl.
  rewrite bool_decide_eq_false_2 by done.
  eexists. split; [reflexivity|]. split; [by apply Qc_weight_le|].
  intros Hk. rewrite (jaccard_disjoint _ _ Hk) in Hks.
  apply Ok_inj in Hks. subst ks. apply Qc_weights_zero.
Qed.

Lemma combined_similarity_disjoint_names_witness :
  exists s, combined_similarity c_fix c_deploy = Ok s /\ (s ≤ w_keyword)%Qc /\
    ((list_to_set (keywords c_fix) : gset string) ∩ list_to_set (keywords c_deploy) = ∅ ->
     s = 0%Qc).
Proof.
  apply (combined_similarity_disjoint_names c_fix c_deploy).
  - discriminate.
  - vm_compute. reflexivity.
Defined.

(** ** Overlap and gap finders: thresholds, sizes, and how the two compose *)

(** X10: a pair of equal kind and equal name is reported as a match for
    every threshold up to the float 0.6, whatever the keywords, whenever
    [find_overlaps] returns; its similarity is at least that float. *)
Theorem find_overlaps_same_name (our_components external_components : list Component)
    (threshold : Qc) (o e : Component) (matches : list Match) :
  o ∈ our_components -> e ∈ external_components ->
  kind o = kind e -> name o = name e -> (threshold ≤ Binary64.w_name)%Qc ->
  find_overlaps our_components external_components threshold = Ok matches ->
  exists m, m ∈ matches /\ ours m = o /\ theirs m = e /\
    (Binary64.w_name ≤ similarity m)%Qc.
Proof.
  intros Ho He Hk Hn Ht. rewrite find_overlaps_eq.
  destruct (decide _) as [Hf|Hf]; [|discriminate]. intros <-%Ok_inj.
  pose proof (sim_of_same_name o e Hn) as Hs.
  exists (match_of (o, e)). split; [|done].
  apply elem_of_find_overlaps. exists (o, e). repeat split; try done.
  simpl. by etrans.
Qed.

Lemma find_overlaps_same_name_witness :
  exists m, m ∈ [match_of (c_fix, c_fix_theirs)] /\
    ours m = c_fix /\ theirs m = c_fix_theirs /\ (Binary64.w_name ≤ similarity m)%Qc.
Proof.
  apply (find_overlaps_same_name [c_pdf; c_fix] [c_deploy; c_fix_theirs]
           default_threshold c_fix c_fix_theirs).
  - apply list_elem_of_In. simpl. tauto.
  - apply list_elem_of_In. simpl. tauto.
  - reflexivity.
  - reflexivity.
  - unfold Qcle. vm_compute. discriminate.
  - vm_compute. reflexivity.
Defined.

Lemma insert_desc_head (m : Match) (l : list Match) :
  Forall (λ x, (similarity x ≤ similarity m)%Qc) l -> insert_desc m l = m :: l.
Proof.
  destruct l as [|x l]; [done|]. intros [Hx _]%Forall_cons.
  simpl. unfold similarity_desc. rewrite bool_decide_eq_false_2; [done|].
  by apply Qcle_not_lt.
Qed.

(** Keeping the matches at or above a threshold commutes with inserting in
    a sorted list. *)
Lemma filter_insert_desc (t : Qc) (m : Match) (l : list Match) :
  StronglySorted by_similarity_desc l ->
  filter (λ x, (t ≤ similarity x)%Qc) (insert_desc m l)
  = if decide (t ≤ similarity m)%Qc
    then insert_desc m (filter (λ x, (t ≤ similarity x)%Qc) l)
    else filter (λ x, (t ≤ similarity x)%Qc) l.
Proof.
  induction 1 as [|x l Hs IH Hx]; simpl.
  - rewrite filter_cons, filter_nil. by destruct (decide _).
  - unfold similarity_desc at 1. case_bool_decide as Hlt.
    + rewrite !filter_cons, IH.
      destruct (decide (t ≤ similarity m)%Qc) as [Hm|Hm].
      * assert (Hxt : (t ≤ similarity x)%Qc)
          by (etrans; [exact Hm|by apply Qclt_le_weak]).
        rewrite !decide_True by done. simpl.
        unfold similarity_desc at 2. by rewrite bool_decide_eq_true_2.
      * done.
    + apply Qcnot_lt_le in Hlt. rewrite filter_cons.
      destruct (decide (t ≤ similarity m)%Qc) as [Hm|Hm]; [|done].
      symmetry. apply insert_desc_head.
      apply List.Forall_forall. intros y Hy%list_elem_of_In.
      apply list_elem_of_filter in Hy as [_ Hy].
      apply elem_of_cons in Hy as [->|Hy]; [done|].
      rewrite List.Forall_forall in Hx. etrans; [|exact Hlt].
      apply Hx. by apply list_elem_of_In.
Qed.

Lemma filter_sort_desc (t : Qc) (l : list Match) :
  filter (λ x, (t ≤ similarity x)%Qc) (sort_desc l)
  = sort_desc (filter (λ x, (t ≤ similarity x)%Qc) l).
Proof.
  induction l as [|m l IH]; [done|].
  change (sort_desc (m :: l)) with (insert_desc m (sort_desc l)).
  rewrite filter_insert_desc by apply sort_desc_sorted.
  rewrite filter_cons, IH. by destruct (decide _).
Qed.

Lemma filter_match_of (t : Qc) (l : list (Component * Component)) :
  filter (λ x, (t ≤ similarity x)%Qc) (match_of <$> l)
  = match_of <$> filter (λ p, (t ≤ sim_of p.1 p.2)%Qc) l.
Proof.
  induction l as [|p l IH]; [done|].
  rewrite fmap_cons, !filter_cons. simpl.
  destruct (decide (t ≤ sim_of p.1 p.2)%Qc); rewrite IH; reflexivity.
Qed.

Lemma filter_qualifies (t1 t2 : Qc) (l : list (Component * Component)) :
  (t1 ≤ t2)%Qc ->
  filter (λ p, (t2 ≤ sim_of p.1 p.2)%Qc) (filter (qualifies t1) l)
  = filter (qualifies t2) l.
Proof.
  intros Ht. rewrite list_filter_filter. apply list_filter_iff.
  intros p. unfold qualifies. split.
  - intros (H2 & Hk & _). by split.
  - intros (Hk & H2). repeat split; try done. by etrans.
Qed.

(** X11: raising the threshold only removes matches: when [find_overlaps]
    returns for a threshold, it returns for every higher one, and the result
    is that for the lower threshold without the matches below the higher
    one, the order kept. *)
Theorem find_overlaps_threshold (our_components external_components : list Component)
    (t1 t2 : Qc) (matches : list Match) :
  (t1 ≤ t2)%Qc ->
  find_overlaps our_components external_components t1 = Ok matches ->
  find_overlaps our_components external_components t2
  = Ok (filter (λ m, (t2 ≤ similarity m)%Qc) matches).
Proof.
  intros Ht. rewrite !find_overlaps_eq.
  destruct (decide (Forall ratio_in_range
                      (discovery_order our_components external_components t1)))
    as [Hf|Hf]; [|discriminate].
  intros <-%Ok_inj.
  rewrite filter_sort_desc, filter_match_of. unfold discovery_order in *.
  rewrite filter_qualifies by done.
  rewrite decide_True; [done|].
  rewrite <- (filter_qualifies t1 t2) by done.
  rewrite Forall_forall in *. intros p [_ Hp]%list_elem_of_filter. by apply Hf.
Qed.

Lemma find_overlaps_threshold_witness :
  find_overlaps [c_fix] [c_fix_theirs; c_deploy] half
  = Ok (filter (λ m, (half ≤ similarity m)%Qc)
          [match_of (c_fix, c_fix_theirs)]).
Proof.
  apply (find_overlaps_threshold [c_fix] [c_fix_theirs; c_deploy] default_threshold half).
  - unfold Qcle. vm_compute. discriminate.
  - vm_compute. reflexivity.
Defined.

(** X12: there are never more matches than pairs, each match carries the
    size ratio [theirs.line_count / max(ours.line_count, 1)], which is the
    line count of "theirs" itself for an "ours" document of zero lines, and
    the only exception [find_overlaps] raises is [OverflowError]: an "ours"
    document of zero lines does not make the division fail. *)
Theorem find_overlaps_size (our_components external_components : list Component)
    (threshold : Qc) :
  (forall matches,
     find_overlaps our_components external_components threshold = Ok matches ->
     length matches <= length our_components * length external_components /\
     forall m, m ∈ matches ->
       Binary64.truediv (line_count (theirs m)) (Z.max (line_count (ours m)) 1)
       = Ok (size_ratio m) /\
       (line_count (ours m) = 0%Z ->
        size_ratio m = Binary64.round (Q2Qc (inject_Z (line_count (theirs m)))))) /\
  (forall err,
     find_overlaps our_components external_components threshold = Raise err ->
     err = OverflowError).
Proof.
  rewrite find_overlaps_eq.
  destruct (decide (Forall ratio_in_range
                      (discovery_order our_components external_components threshold)))
    as [Hf|Hf].
  - split; [|discriminate]. intros matches <-%Ok_inj. split.
    + rewrite sort_desc_perm, length_fmap. unfold discovery_order.
      etrans; [apply length_filter|]. by rewrite length_prod.
    + intros m (p & -> & Ho & He & Hq)%elem_of_find_overlaps.
      rewrite Forall_forall in Hf.
      assert (Hr : ratio_in_range p).
      { apply Hf, elem_of_discovery_order. done. }
      unfold match_of. cbn [ours theirs size_ratio]. split.
      * rewrite size_ratio_cases. unfold ratio_in_range in Hr. by rewrite Hr.
      * intros H0. unfold ratio_of, exact_ratio. rewrite H0.
        f_equal. apply Qc_is_canon. simpl. rewrite !Qred_correct.
        unfold Qdiv. change (/ inject_Z 1)%Q with 1%Q. apply Qmult_1_r.
  - split; [discriminate|]. intros err H. by injection H.
Qed.

Lemma find_unmatched_eq (exts os : list Component) (t : Qc) :
  exists unmatched, find_unmatched exts os t = Ok unmatched /\
    sublist unmatched exts /\
    forall e, e ∈ unmatched <-> e ∈ exts /\ is_gap os t e.
Proof.
  destruct (find_unmatched_loop_spec exts os t []) as (u & Hu & kept & -> & Hs & Hk).
  exists ([] ++ kept). split; [exact Hu|]. split; [exact Hs|]. exact Hk.
Qed.

(** X13: the two finders never report the same external component, and for
    a positive threshold they leave none out: each external component is a
    gap, or the "theirs" of a match, or has the name of one of our
    components. *)
Theorem finders_cover (our_components external_components : list Component)
    (threshold : Qc) :
  exists unmatched,
    find_unmatched external_components our_components threshold = Ok unmatched /\
    forall matches,
      find_overlaps our_components external_components threshold = Ok matches ->
      (forall e m, e ∈ unmatched -> m ∈ matches -> theirs m <> e) /\
      ((0 < threshold)%Qc ->
       forall e, e ∈ external_components ->
         e ∈ unmatched \/
         (exists m, m ∈ matches /\ theirs m = e) \/
         (exists o, o ∈ our_components /\ name o = name e)).
Proof.
  destruct (find_unmatched_eq external_components our_components threshold)
    as (u & Hu & _ & Hgap).
  exists u. split; [exact Hu|]. intros matches. rewrite find_overlaps_eq.
  destruct (decide _) as [Hf|Hf]; [|discriminate]. intros <-%Ok_inj.
  split.
  - intros e m He (p & -> & Ho & _ & Hk & Ht)%elem_of_find_overlaps Heq.
    simpl in Heq. subst e.
    apply Hgap in He as (_ & _ & Hall & _).
    destruct (Hall p.1 Ho Hk) as (s & Hs & Hlt).
    rewrite combined_similarity_ok in Hs. apply Ok_inj in Hs. subst s.
    by apply Qclt_not_le in Hlt.
  - intros Hpos e He.
    destruct (decide (Exists (λ o, kind o = kind e /\ (threshold ≤ sim_of o e)%Qc)
                        our_components)) as [Hm|Hm].
    { right. left. apply Exists_exists in Hm as (o & Ho & Hk & Ht).
      exists (match_of (o, e)). split; [|done].
      apply elem_of_find_overlaps. by exists (o, e). }
    destruct (decide (Exists (λ o, name o = name e) our_components)) as [Hn|Hn].
    { right. right. apply Exists_exists in Hn as (o & Ho & Heq). by exists o. }
    left. apply Hgap. split; [done|]. split; [done|]. split.
    + intros o Ho Hk. exists (sim_of o e).
      split; [apply combined_similarity_ok|].
      apply Qcnot_le_lt. intros Hle. apply Hm, Exists_exists. by exists o.
    + intros o Ho Heq. apply Hn, Exists_exists. by exists o.
Qed.

Lemma find_unmatched_loop_empty (exts : list Component) (t : Qc) (acc : list Component) :
  find_unmatched_loop exts [] ∅ t acc
  = Ok (acc ++ if decide (0 < t)%Qc then exts else []).
Proof.
  revert acc. induction exts as [|e exts IH]; intros acc.
  - simpl. destruct (decide _); by rewrite app_nil_r.
  - cbn [find_unmatched_loop find_unmatched_best rbind].
    specialize (IH (acc ++ [e])) as IH1. specialize (IH acc) as IH2.
    destruct (decide (0 < t)%Qc) as [Ht|Ht].
    + rewrite bool_decide_eq_true_2 by done.
      rewrite bool_decide_eq_true_2 by apply not_elem_of_empty.
      cbn [andb]. by rewrite IH1, <- app_assoc.
    + rewrite bool_decide_eq_false_2 by done. cbn [andb]. exact IH2.
Qed.

(** X14: against an empty catalog of our own every external component is a
    gap, in catalog order and with its repetitions, when the threshold is
    positive; when it is not, nothing is. *)
Theorem find_unmatched_empty_catalog (external_components : list Component)
    (threshold : Qc) :
  find_unmatched external_components [] threshold
  = Ok (if decide (0 < threshold)%Qc then external_components else []).
Proof. unfold find_unmatched. apply (find_unmatched_loop_empty _ _ []). Qed.

(** X15: raising the threshold only adds gaps. *)
Theorem find_unmatched_threshold (external_components our_components : list Component)
    (t1 t2 : Qc) :
  (t1 ≤ t2)%Qc ->
  exists u1 u2,
    find_unmatched external_components our_components t1 = Ok u1 /\
    find_unmatched external_components our_components t2 = Ok u2 /\
    forall e, e ∈ u1 -> e ∈ u2.
Proof.
  intros Ht.
  destruct (find_unmatched_eq external_components our_components t1)
    as (u1 & Hu1 & _ & Hg1).
  destruct (find_unmatched_eq external_components our_components t2)
    as (u2 & Hu2 & _ & Hg2).
  exists u1, u2. split; [done|]. split; [done|].
  intros e (He & Hpos & Hall & Hn)%Hg1. apply Hg2.
  split; [done|]. split; [by eapply Qclt_le_trans|]. split; [|done].
  intros o Ho Hk. destruct (Hall o Ho Hk) as (s & Hs & Hlt).
  exists s. split; [done|]. by eapply Qclt_le_trans.
Qed.

Lemma find_unmatched_threshold_witness :
  exists u1 u2,
    find_unmatched [c_deploy; c_fix_theirs] [c_fix] default_threshold = Ok u1 /\
    find_unmatched [c_deploy; c_fix_theirs] [c_fix] half = Ok u2 /\
    forall e, e ∈ u1 -> e ∈ u2.
Proof.
  apply (find_unmatched_threshold [c_deploy; c_fix_theirs] [c_fix] default_threshold half).
  unfold Qcle. vm_compute. discriminate.
Defined.

(** ** Catalog store: what is written and what a reload gives *)

Lemma without_frontmatter_idemp (c : Component) :
  without_frontmatter (without_frontmatter c) = without_frontmatter c.
Proof. reflexivity. Qed.

Lemma without_frontmatter_id (c : Component) :
  frontmatter c = ∅ -> without_frontmatter c = c.
Proof. destruct c. simpl. by intros ->. Qed.

Lemma load_save_catalog (components : list Component) :
  load_catalog (Some (save_catalog components)) = Ok (without_frontmatter <$> components).
Proof. cbn [load_catalog]. rewrite save_catalog_fmap. apply load_save_records. Qed.

(** X16: a catalog whose components carry no frontmatter (as every loaded
    catalog does) is read back from the cache exactly as it was saved. *)
Theorem catalog_reload_exact (components : list Component) :
  Forall (λ c, frontmatter c = ∅) components ->
  load_catalog (Some (save_catalog components)) = Ok components.
Proof.
  intros H. rewrite load_save_catalog. f_equal.
  induction H as [|c cs Hc _ IH]; [done|].
  by rewrite fmap_cons, IH, without_frontmatter_id.
Qed.

Lemma catalog_reload_exact_witness :
  load_catalog (Some (save_catalog [c_fix; c_reviewer])) = Ok [c_fix; c_reviewer].
Proof.
  apply (catalog_reload_exact [c_fix; c_reviewer]).
  repeat constructor.
Defined.

(** X17: saving and loading once more changes nothing: what a first round
    trip returns is returned again by the next. *)
Theorem catalog_round_trip_stable (components : list Component) :
  exists loaded,
    load_catalog (Some (save_catalog components)) = Ok loaded /\
    load_catalog (Some (save_catalog loaded)) = Ok loaded.
Proof.
  exists (without_frontmatter <$> components).
  split; [apply load_save_catalog|].
  rewrite load_save_catalog. f_equal.
  rewrite <- list_fmap_compose. apply list_fmap_ext.
  intros ? c _. apply without_frontmatter_idemp.
Qed.

(** X18: [save_catalog] writes one record per component, in order, and a
    record has exactly the nine keys kind, name, repo, path, description,
    keywords, line_count, has_references and reference_files: the
    frontmatter is never written. *)
Theorem save_catalog_records (components : list Component) :
  length (save_catalog components) = length components /\
  forall d, d ∈ save_catalog components ->
    dom d = record_keys /\ d !! "frontmatter" = None.
Proof.
  rewrite save_catalog_fmap. split; [apply length_fmap|].
  intros d (c & -> & _)%list_elem_of_fmap. split.
  - unfold save_record, record_keys. rewrite !dom_insert_L, dom_empty_L.
    cbn [list_to_set]. set_solver.
  - unfold save_record. by repeat (rewrite lookup_insert_ne by done).
Qed.

Lemma load_record_missing (d : gmap string json) (key : string) :
  key ∈ required_keys -> d !! key = None -> exists e, load_record d = Raise e.
Proof.
  intros Hkey Hnone. unfold load_record, getitem.
  destruct (d !! "kind") eqn:Ek; [|by eexists].
  destruct (d !! "name") eqn:En; [|by eexists].
  destruct (d !! "repo") eqn:Er; [|by eexists].
  destruct (d !! "path") eqn:Ep; [|by eexists].
  exfalso. unfold required_keys in Hkey.
  repeat (apply elem_of_cons in Hkey as [->|Hkey]; [congruence|]).
  by apply elem_of_nil in Hkey.
Qed.

(** X19: one record without a required key makes the whole load fail: no
    partial catalog is returned, wherever the record stands in the file. *)
Theorem load_catalog_missing_key (data : list (gmap string json))
    (d : gmap string json) (key : string) :
  d ∈ data -> key ∈ required_keys -> d !! key = None ->
  exists e, load_catalog (Some data) = Raise e.
Proof.
  intros Hd Hkey Hnone. cbn [load_catalog].
  induction data as [|d0 data IH]; [by apply elem_of_nil in Hd|].
  cbn [load_records].
  destruct (load_record d0) as [c|e] eqn:E0; [|by exists e].
  apply elem_of_cons in Hd as [->|Hd].
  - destruct (load_record_missing d0 key Hkey Hnone) as (e & He). congruence.
  - destruct (IH Hd) as (e & He). exists e. cbn [rbind]. by rewrite He.
Qed.

Lemma load_catalog_missing_key_witness :
  exists e, load_catalog (Some [save_record c_fix; record_without_path]) = Raise e.
Proof.
  apply (load_catalog_missing_key [save_record c_fix; record_without_path]
           record_without_path "path").
  - apply list_elem_of_In. simpl. tauto.
  - apply list_elem_of_In. simpl. tauto.
  - reflexivity.
Defined.

(** ** Report generator: the matches table *)

Lemma size_difference_seen (k : string * string * string)
    (X seen : gset (string * string * string)) :
  k ∈ seen -> size (({[k]} ∪ X) ∖ seen) = size (X ∖ seen).
Proof.
  intros Hk. f_equal. apply leibniz_equiv. intros x.
  rewrite !elem_of_difference, elem_of_union, elem_of_singleton.
  split; [|tauto]. intros [[->|Hx] Hn]; [done|tauto].
Qed.

Lemma size_difference_new (k : string * string * string)
    (X seen : gset (string * string * string)) :
  k ∉ seen -> size (({[k]} ∪ X) ∖ seen) = S (size (X ∖ (seen ∪ {[k]}))).
Proof.
  intros Hk.
  assert (E : ({[k]} ∪ X) ∖ seen = {[k]} ∪ X ∖ (seen ∪ {[k]})).
  { apply leibniz_equiv. intros x.
    rewrite !elem_of_difference, !elem_of_union, elem_of_difference,
      elem_of_union, !elem_of_singleton.
    destruct (decide (x = k)) as [->|Hx]; tauto. }
  rewrite E, size_union, size_singleton; [done|].
  intros x Hx%elem_of_singleton [_ Hn]%elem_of_difference.
  apply Hn, elem_of_union_r, elem_of_singleton. exact Hx.
Qed.

Lemma overlap_rows_length (fmt_2f fmt_1f : Qc -> string) (ms : list Match)
    (seen : gset (string * string * string)) :
  length (overlap_rows fmt_2f fmt_1f ms seen)
  = size ((list_to_set (match_key <$> ms) : gset (string * string * string)) ∖ seen).
Proof.
  revert seen. induction ms as [|m ms IH]; intros seen.
  - cbn [overlap_rows length fmap list_fmap list_to_set].
    rewrite empty_difference_L. by rewrite size_empty.
  - cbn [overlap_rows]. rewrite fmap_cons. cbn [list_to_set].
    fold (match_key m). case_bool_decide as Hseen.
    + by rewrite IH, size_difference_seen.
    + cbn [length]. by rewrite IH, size_difference_new.
Qed.

Lemma overlap_rows_le (fmt_2f fmt_1f : Qc -> string) (ms : list Match)
    (seen : gset (string * string * string)) :
  length (overlap_rows fmt_2f fmt_1f ms seen) <= length ms.
Proof.
  revert seen. induction ms as [|m ms IH]; intros seen; [done|].
  cbn [overlap_rows length]. case_bool_decide.
  - etrans; [apply IH|lia].
  - cbn [length]. apply le_n_S, IH.
Qed.


Lemma overlap_rows_filter (fmt_2f fmt_1f : Qc -> string) (ms : list Match)
    (seen : gset (string * string * string)) :
  overlap_rows fmt_2f fmt_1f ms seen
  = overlap_row fmt_2f fmt_1f
      <$> filter (λ m, match_key m ∉ seen) (first_of_each_key ms).
Proof.
  revert seen. induction ms as [|m ms IH]; intros seen; [done|].
  cbn [overlap_rows first_of_each_key]. fold (match_key m).
  rewrite filter_cons, list_filter_filter.
  case_bool_decide as Hseen.
  - rewrite decide_False by (by intros ?). rewrite IH. f_equal.
    apply list_filter_iff. intros m'. split; [|tauto].
    intros Hm'. split; [done|]. intros Heq. apply Hm'. by rewrite Heq.
  - rewrite decide_True by done. rewrite fmap_cons, IH. do 2 f_equal.
    apply list_filter_iff. intros m'.
    rewrite elem_of_union, elem_of_singleton. tauto.
Qed.

Lemma first_of_each_key_sublist (ms : list Match) : sublist (first_of_each_key ms) ms.
Proof.
  induction ms as [|m ms IH]; [done|]. cbn [first_of_each_key].
  constructor. etrans; [apply sublist_filter|exact IH].
Qed.

Lemma first_of_each_key_NoDup (ms : list Match) :
  NoDup (match_key <$> first_of_each_key ms).
Proof.
  induction ms as [|m ms IH]; [constructor|]. cbn [first_of_each_key].
  rewrite fmap_cons. constructor.
  - intros (m' & Heq & Hm')%list_elem_of_fmap.
    apply list_elem_of_filter in Hm' as [Hne _]. by apply Hne.
  - apply (sublist_NoDup _ _ IH), fmap_sublist, sublist_filter.
Qed.

(** Each match is represented by the first match of the list that has its
    key. *)
Lemma first_of_each_key_first (ms : list Match) (m : Match) :
  m ∈ ms ->
  exists i m', ms !! i = Some m' /\ match_key m' = match_key m /\
    m' ∈ first_of_each_key ms /\
    forall j m'', j < i -> ms !! j = Some m'' -> match_key m'' <> match_key m.
Proof.
  induction ms as [|m0 ms IH]; [by intros ?%elem_of_nil|].
  intros Hm. cbn [first_of_each_key].
  destruct (decide (match_key m0 = match_key m)) as [Heq|Hne].
  - exists 0, m0. split; [done|]. split; [done|]. split; [by left|].
    intros j m'' Hj. lia.
  - apply elem_of_cons in Hm as [->|Hm]; [done|].
    destruct (IH Hm) as (i & m' & Hi & Hk & Hin & Hfirst).
    exists (S i), m'. split; [done|]. split; [done|]. split.
    + right. apply list_elem_of_filter. split; [|done]. by rewrite Hk.
    + intros [|j] m'' Hj Hl; [by injection Hl as <-|].
      apply (Hfirst j); [lia|done].
Qed.

(** X20: the matches table shows each triple (ours name, theirs name,
    theirs repo) once: its rows are the rows of the matches that are the
    first of the list with their triple, in the order of the list; the
    later matches with a triple already shown are left out.  So there is
    one row per distinct triple, and never more rows than matches. *)
Theorem overlap_rows_dedup (fmt_2f fmt_1f : Qc -> string) (ms : list Match) :
  overlap_rows fmt_2f fmt_1f ms ∅ = overlap_row fmt_2f fmt_1f <$> first_of_each_key ms /\
  sublist (first_of_each_key ms) ms /\
  NoDup (match_key <$> first_of_each_key ms) /\
  (forall m, m ∈ ms ->
     exists i m', ms !! i = Some m' /\ match_key m' = match_key m /\
       m' ∈ first_of_each_key ms /\
       forall j m'', j < i -> ms !! j = Some m'' -> match_key m'' <> match_key m) /\
  length (overlap_rows fmt_2f fmt_1f ms ∅)
  = size (list_to_set (match_key <$> ms) : gset (string * string * string)) /\
  length (overlap_rows fmt_2f fmt_1f ms ∅) <= length ms.
Proof.
  split; [|split; [|split; [|split; [|split]]]].
  - rewrite overlap_rows_filter. f_equal.
    induction (first_of_each_key ms) as [|m l IH]; [done|].
    rewrite filter_cons, decide_True by apply not_elem_of_empty. by rewrite IH.
  - apply first_of_each_key_sublist.
  - apply first_of_each_key_NoDup.
  - apply first_of_each_key_first.
  - rewrite overlap_rows_length. by rewrite difference_empty_L.
  - apply overlap_rows_le.
Qed.

(** ** Main: the dictionary of external components by repository *)

Lemma split_on_head (sep : ascii) (s : string) :
  exists w ws, Py.split_on sep s = w :: ws /\ Py.contains sep w = false.
Proof.
  induction s as [|c s (w & ws & Hs & Hw)]; [by exists "", []|].
  cbn [Py.split_on]. destruct (Ascii.eqb c sep) eqn:E.
  - by exists "", (Py.split_on sep s).
  - rewrite Hs. exists (String c w), ws. split; [done|].
    simpl. by rewrite E, Hw.
Qed.

Lemma repo_key_no_slash (c : Component) : Py.contains "/" (repo_key c) = false.
Proof.
  unfold repo_key. destruct (Py.contains "/" (repo c)) eqn:E; [|done].
  destruct (split_on_head "/" (repo c)) as (w & ws & -> & Hw). done.
Qed.

Lemma total_ext_group_external (m : gmap string (list Component)) (c : Component) :
  total_ext (group_external m c) = S (total_ext m).
Proof.
  unfold total_ext, group_external.
  destruct (m !! repo_key c) as [l|] eqn:E; cbn [default from_option id].
  - rewrite <- insert_delete_eq.
    rewrite map_to_list_insert by apply lookup_delete_eq.
    rewrite <- (map_to_list_delete m (repo_key c) l E).
    rewrite !fmap_cons. cbn [snd sum_list_with id]. rewrite length_app. simpl. lia.
  - rewrite map_to_list_insert by done.
    rewrite !fmap_cons. by cbn [snd sum_list_with id app length].
Qed.

Lemma total_ext_group_by_repo_key (l : list Component) :
  total_ext (group_by_repo_key l) = length l.
Proof.
  unfold group_by_repo_key.
  assert (H : forall m, total_ext (foldl group_external m l) = total_ext m + length l).
  { induction l as [|c l IH]; intros m; simpl; [lia|].
    rewrite IH, total_ext_group_external. lia. }
  rewrite H. reflexivity.
Qed.

(** The components of [l] that go under the key [k], or nothing when there
    is none. *)
Lemma group_by_repo_key_lookup (l : list Component) (k : string) :
  group_by_repo_key l !! k
  = match filter (λ c, repo_key c = k) l with
    | [] => None
    | g => Some g
    end.
Proof.
  unfold group_by_repo_key.
  assert (H : forall (done : list Component) (m : gmap string (list Component)),
            (forall k, m !! k = match filter (λ c, repo_key c = k) done with
                                | [] => None | g => Some g end) ->
            forall k, foldl group_external m l !! k
                      = match filter (λ c, repo_key c = k) (done ++ l) with
                        | [] => None | g => Some g end).
  { induction l as [|c l IH]; intros done m Hm k'.
    - simpl. rewrite app_nil_r. apply Hm.
    - cbn [foldl]. replace (done ++ c :: l) with ((done ++ [c]) ++ l)
        by (by rewrite <- app_assoc).
      apply IH. clear k'. intros k'. unfold group_external.
      rewrite filter_app, filter_cons, filter_nil.
      destruct (decide (repo_key c = k')) as [<-|Hk].
      + rewrite lookup_insert_eq, Hm.
        destruct (filter (λ c0, repo_key c0 = repo_key c) done); done.
      + rewrite lookup_insert_ne by done. rewrite app_nil_r. apply Hm. }
  apply (H [] ∅). intros k'. by rewrite lookup_empty.
Qed.

(** X21: grouping loses and repeats nothing: the groups hold as many
    components as were scanned, each group is the sub-list of the components
    with that key in scan order, and no key contains a slash (a nested
    label such as [repo/plugin] goes under [repo]). *)
Theorem group_by_repo_key_spec (external_components : list Component) :
  total_ext (group_by_repo_key external_components) = length external_components /\
  forall k group, group_by_repo_key external_components !! k = Some group ->
    group = filter (λ c, repo_key c = k) external_components /\
    group <> [] /\ Py.contains "/" k = false.
Proof.
  split; [apply total_ext_group_by_repo_key|].
  intros k group. rewrite group_by_repo_key_lookup.
  destruct (filter (λ c, repo_key c = k) external_components) as [|c g] eqn:E;
    [done|].
  intros [= <-]. split; [done|]. split; [done|].
  assert (Hc : c ∈ filter (λ c, repo_key c = k) external_components)
    by (rewrite E; by left).
  apply list_elem_of_filter in Hc as [<- _]. apply repo_key_no_slash.
Qed.

(** X22: for the dictionary [main] builds, the statistics line "External
    components scanned" of the report shows the number of all external
    components, whatever the kind filter. *)
Theorem generate_report_scanned_count (now : string) (fmt_2f fmt_1f : Qc -> string)
    (our_components external_components : list Component)
    (matches : list Match) (unmatched : list Component)
    (filter_kind : option string) :
  ("- External components scanned: " +:+ pretty (length external_components))
  ∈ generate_report_lines now fmt_2f fmt_1f our_components
      (group_by_repo_key external_components) matches unmatched filter_kind.
Proof.
  unfold generate_report_lines. cbv zeta.
  apply elem_of_app. right.
  fold (total_ext (group_by_repo_key external_components)).
  rewrite total_ext_group_by_repo_key.
  apply list_elem_of_In. simpl. tauto.
Qed.

(** ** Similarity engine: the scores in binary64 *)

(** X23: in binary64 arithmetic, as the interpreter computes them, the
    three scores are returned without exception and lie in [0,1]: rounding
    takes no quotient, product or sum above 1.0; and two components of the
    same name score at least the float 0.6. *)
Theorem binary64_combined_similarity_bounded (ours theirs : Component) :
  exists ns ks sim : Qc,
    Binary64.name_similarity (name ours) (name theirs) = Ok ns /\
    Binary64.keyword_similarity (keywords ours) (keywords theirs) = Ok ks /\
    Binary64.combined_similarity ours theirs = Ok sim /\
    (0 ≤ ns)%Qc /\ (ns ≤ 1)%Qc /\ (0 ≤ ks)%Qc /\ (ks ≤ 1)%Qc /\
    (0 ≤ sim)%Qc /\ (sim ≤ 1)%Qc /\
    (name ours = name theirs -> (Binary64.w_name ≤ sim)%Qc).
Proof.
  destruct (binary64_jaccard_bounds (name_words (name ours)) (name_words (name theirs)))
    as (ns & Hns & Hn0 & Hn1).
  destruct (binary64_jaccard_bounds (list_to_set (keywords ours))
              (list_to_set (keywords theirs))) as (ks & Hks & Hk0 & Hk1).
  destruct (binary64_combined_similarity_total ours theirs) as (Hs & Hs0 & Hs1).
  exists ns, ks, (sim_of ours theirs).
  repeat (split; [done|]). apply sim_of_same_name.
Qed.

(** X24: in binary64 arithmetic the combined similarity is symmetric, a
    component with keywords scores exactly 1.0 against itself (the floats
    0.6 and 0.4 add up to 1.0 without rounding error), and one without
    keywords scores exactly the float 0.6. *)
Theorem binary64_combined_similarity_refl_sym (a b : Component) :
  Binary64.combined_similarity a b = Binary64.combined_similarity b a /\
  (keywords a <> [] -> Binary64.combined_similarity a a = Ok 1%Qc) /\
  (keywords a = [] -> Binary64.combined_similarity a a = Ok Binary64.w_name).
Proof.
  split; [|split].
  - rewrite !binary64_combined_similarity_unfold.
    rewrite (binary64_jaccard_comm (name_words (name a))).
    rewrite (binary64_jaccard_comm (list_to_set (keywords a))).
    destruct (jaccard64 (name_words (name b)) (name_words (name a))); [|done].
    destruct (jaccard64 (list_to_set (keywords b)) (list_to_set (keywords a))); [|done].
    cbn [rbind]. do 2 case_bool_decide; congruence.
  - intros Hk. rewrite binary64_combined_similarity_unfold.
    destruct (binary64_jaccard_bounds (name_words (name a)) (name_words (name a)))
      as (ns & -> & _).
    rewrite binary64_jaccard_diag by (by rewrite list_to_set_nil_iff).
    cbn [rbind]. rewrite bool_decide_eq_true_2 by done.
    apply (f_equal Ok). unfold Binary64.add, Binary64.mul.
    rewrite !Qcmult_1_r, round_w_name, round_w_keyword, binary64_weights_sum.
    apply round_one.
  - intros Hk. rewrite binary64_combined_similarity_unfold.
    destruct (binary64_jaccard_bounds (name_words (name a)) (name_words (name a)))
      as (ns & -> & _).
    rewrite Hk. change (list_to_set []) with (∅ : gset string).
    rewrite binary64_jaccard_empty_l.
    cbn [rbind]. rewrite bool_decide_eq_true_2 by done.
    apply (f_equal Ok). unfold Binary64.add, Binary64.mul.
    rewrite Qcmult_1_r, Qcmult_0_r, round_w_name, round_zero, Qcplus_0_r.
    apply round_w_name.
Qed.
